(** * Matrix factorisation recommender ([cornac/models/mf/recom_mf.pyx])

    A shallow embedding of the class [MF]: its constructor, the SGD
    training loop [fit], the pointwise predictor [score] and the ranking
    routine [rank].

    Numbers are IEEE-754 binary64 values (Cython [double], NumPy
    [float64]), embedded as Rocq's primitive [float]; every arithmetic
    operation below is therefore the rounded machine operation.  Dense
    arrays are lists, indexed from 0.  Python exceptions are the
    constructors of [exception], and a call that may raise returns a
    [result]. *)

From Stdlib Require Import ZArith String Floats Lia.
From stdpp Require Import base option list sorting.

Local Open Scope string_scope.
Local Open Scope list_scope.
Local Open Scope stdpp_scope.
#[local] Set Warnings "-inexact-float".

(** ** Exceptions and results *)

Inductive exception : Type :=
| ValueError (msg : string)
| ScoreException (user_id item_id : nat)
    (** message: "Can't make score prediction for (user_id=%d, item_id=%d)",
        formatted with these two indices *)
| IndexError
| AttributeError (name : string).

Inductive result (A : Type) : Type :=
| Ok (a : A)
| Raise (e : exception).
Arguments Ok {A} a.
Arguments Raise {A} e.

#[global] Instance result_ret : MRet result := @Ok.
#[global] Instance result_bind : MBind result := fun A B f r =>
  match r with
  | Ok a => f a
  | Raise e => Raise e
  end.

(** ** Dense arrays *)

Abbreviation vector := (list float).
Abbreviation matrix := (list (list float)).

(** Reading attribute [name] of an object that may not have it yet. *)
Definition getattr {A} (name : string) (o : option A) : result A :=
  match o with
  | Some a => Ok a
  | None => Raise (AttributeError name)
  end.

(** Bounds-checked indexing [a[i]] with a non-negative index. *)
Definition getitem {A} (a : list A) (i : nat) : result A :=
  match a !! i with
  | Some x => Ok x
  | None => Raise IndexError
  end.

(** [fit] runs with [boundscheck(False)]: an access outside the array is
    undefined there.  The embedding reads [0.] and writes nothing in that
    case; the (row, column) pairs that [fit] uses come from the training
    matrix, whose shape is [num_users] x [num_items]. *)
Definition at2 (M : matrix) (r c : nat) : float :=
  default 0%float (M !! r ≫= (.!! c)).

Definition set2 (M : matrix) (r c : nat) (v : float) : matrix :=
  alter (<[c := v]>) r M.

Definition at1 (b : option vector) (i : nat) : float :=
  default 0%float (b ≫= (.!! i)).

(** [np.dot] of two 1-d arrays, accumulated from left to right as the loop
    of lines 103-104 does (NumPy hands the sum to BLAS, which fixes no
    order; nothing below depends on the order chosen). *)
Definition dot (x y : vector) : float :=
  foldl (fun acc p => (acc + p.1 * p.2)%float) 0%float (zip x y).

(** [np.dot] of a 2-d array with a 1-d array: one entry per row. *)
Definition matvec (M : matrix) (x : vector) : vector :=
  (fun row => dot row x) <$> M.

(** [np.zeros([n])] *)
Definition np_zeros (n : nat) : vector := replicate n 0%float.

(** [np.random.normal(size=[rows, cols], ...)]: the entries drawn are an
    input of the model, [draw r c] being the sample at row [r], column [c].
    A negative dimension is refused by NumPy. *)
Definition np_random_normal (draw : nat -> nat -> float) (rows : nat) (cols : Z)
  : result matrix :=
  if (cols <? 0)%Z then Raise (ValueError "negative dimensions are not allowed")
  else Ok ((fun r => draw r <$> seq 0 (Z.to_nat cols)) <$> seq 0 rows).

(** ** The training set (the dataset collaborator)

    Only what [MF] reads of it.  [matrix_triples] is the sparse rating
    matrix [train_set.matrix] as the coordinate triples (row, column,
    value) that [sp.find] returns, in that order.  The two
    predicates [is_unk_user] and [is_unk_item] belong to the dataset and
    are taken as they come. *)
Record TrainSet : Type := {
  num_users : nat;
  num_items : nat;
  global_mean : float;
  min_rating : float;
  matrix_triples : list (nat * nat * float);
  is_unk_user : nat -> bool;
  is_unk_item : nat -> bool
}.

(** ** The model object *)

Record MF : Type := {
  k : Z;
  max_iter : Z;
  learning_rate : float;
  lambda_reg : float;
  use_bias : bool;
  early_stop : bool;
  verbose : bool;
  fitted : bool;
  train_set : option TrainSet;
  u_factors : option matrix;
  i_factors : option matrix;
  u_biases : option vector;
  i_biases : option vector
}.

(** [MF.__init__]: stores its arguments; the attributes that [fit] creates
    do not exist yet. *)
Definition __init__ (k max_iter : Z) (learning_rate lambda_reg : float)
    (use_bias early_stop verbose : bool) : result MF :=
  Ok {| k := k; max_iter := max_iter; learning_rate := learning_rate;
        lambda_reg := lambda_reg; use_bias := use_bias;
        early_stop := early_stop; verbose := verbose; fitted := false;
        train_set := None; u_factors := None; i_factors := None;
        u_biases := None; i_biases := None |}.

(** Modelled from the spec: [Recommender.fit] of the base class, which is
    not part of the sources at hand; it records the dataset on the model,
    where [score] and [rank] read it back. *)
Definition Recommender_fit (self : MF) (ts : TrainSet) : MF :=
  {| k := k self; max_iter := max_iter self;
     learning_rate := learning_rate self; lambda_reg := lambda_reg self;
     use_bias := use_bias self; early_stop := early_stop self;
     verbose := verbose self; fitted := fitted self;
     train_set := Some ts; u_factors := u_factors self;
     i_factors := i_factors self; u_biases := u_biases self;
     i_biases := i_biases self |}.

(** ** [MF.fit] *)

(** What [fit] prints when [verbose] is set. *)
Inductive event : Type :=
| EarlyStopping
| IterLoss (iter : nat) (loss : float)
| OptimizationFinished.

(** The local variables of [fit] that its loops change, and its output. *)
Record fit_state : Type := {
  st_u_factors : matrix;
  st_i_factors : matrix;
  st_u_biases : option vector;
  st_i_biases : option vector;
  st_loss : float;
  st_last_loss : float;
  st_iter : nat;
  st_stdout : list event
}.

Section Fit.
Variable self : MF.
Variable ts : TrainSet.

Let lr := learning_rate self.
Let reg := lambda_reg self.
Let mu := global_mean ts.
Let nk := Z.to_nat (k self).

(** Lines 102-106: the prediction for one observed rating. *)
Definition predict (s : fit_state) (u i : nat) : float :=
  let r_pred :=
    foldl (fun acc f => (acc + at2 (st_u_factors s) u f * at2 (st_i_factors s) i f)%float)
          0%float (seq 0 nk) in
  if use_bias self
  then (r_pred + (mu + at1 (st_u_biases s) u + at1 (st_i_biases s) i))%float
  else r_pred.

(** Lines 112-115: the update of one latent dimension. *)
Definition update_factor (u i : nat) (error : float) (UI : matrix * matrix) (f : nat)
  : matrix * matrix :=
  let u_f := at2 UI.1 u f in
  let i_f := at2 UI.2 i f in
  let U := set2 UI.1 u f (at2 UI.1 u f + lr * (error * i_f - reg * u_f))%float in
  let I := set2 UI.2 i f (at2 UI.2 i f + lr * (error * u_f - reg * i_f))%float in
  (U, I).

(** Lines 102-115: the body of the loop over the observed ratings. *)
Definition sgd_step (s : fit_state) (obs : nat * nat * float) : fit_state :=
  let '(u, i, r) := obs in
  let r_pred := predict s u i in
  let error := (r - r_pred)%float in
  let UI := foldl (update_factor u i error) (st_u_factors s, st_i_factors s) (seq 0 nk) in
  {| st_u_factors := UI.1; st_i_factors := UI.2;
     st_u_biases := st_u_biases s; st_i_biases := st_i_biases s;
     st_loss := (st_loss s + error * error)%float;
     st_last_loss := st_last_loss s;
     st_iter := st_iter s; st_stdout := st_stdout s |}.

(** [delta_loss] of line 119. *)
Definition delta_loss (s : fit_state) : float :=
  abs (st_loss s - st_last_loss s)%float.

(** Lines 98-119: one epoch, up to the test of line 120. *)
Definition epoch (iter : nat) (s : fit_state) : fit_state :=
  let s0 := {| st_u_factors := st_u_factors s; st_i_factors := st_i_factors s;
               st_u_biases := st_u_biases s; st_i_biases := st_i_biases s;
               st_loss := 0%float; st_last_loss := st_loss s;
               st_iter := iter; st_stdout := st_stdout s |} in
  let s1 := foldl sgd_step s0 (matrix_triples ts) in
  {| st_u_factors := st_u_factors s1; st_i_factors := st_i_factors s1;
     st_u_biases := st_u_biases s1; st_i_biases := st_i_biases s1;
     st_loss := (0.5 * st_loss s1)%float; st_last_loss := st_last_loss s1;
     st_iter := st_iter s1; st_stdout := st_stdout s1 |}.

(** The test of line 120. *)
Definition stops (s : fit_state) : bool :=
  early_stop self && (delta_loss s <? 1e-5)%float.

Definition print (e : event) (s : fit_state) : fit_state :=
  if verbose self then
    {| st_u_factors := st_u_factors s; st_i_factors := st_i_factors s;
       st_u_biases := st_u_biases s; st_i_biases := st_i_biases s;
       st_loss := st_loss s; st_last_loss := st_last_loss s;
       st_iter := st_iter s; st_stdout := st_stdout s ++ [e] |}
  else s.

(** Lines 97-126: the loop over [range(1, max_iter + 1)], with its
    [break]. *)
Fixpoint epochs (iters : list nat) (s : fit_state) : fit_state :=
  match iters with
  | [] => s
  | iter :: rest =>
      let s' := epoch iter s in
      if stops s' then print EarlyStopping s'
      else epochs rest (print (IterLoss iter (st_loss s')) s')
  end.

(** Lines 76-93: the state before the first epoch. *)
Definition fit_init (u_draw i_draw : nat -> nat -> float) : result fit_state :=
  U ← np_random_normal u_draw (num_users ts) (k self);
  I ← np_random_normal i_draw (num_items ts) (k self);
  Ok {| st_u_factors := U; st_i_factors := I;
        st_u_biases := if use_bias self then Some (np_zeros (num_users ts)) else None;
        st_i_biases := if use_bias self then Some (np_zeros (num_items ts)) else None;
        st_loss := 0%float; st_last_loss := 0%float;
        st_iter := 0; st_stdout := [] |}.

(** Lines 97-129. *)
Definition fit_loop (s : fit_state) : fit_state :=
  print OptimizationFinished (epochs (seq 1 (Z.to_nat (max_iter self))) s).

(** Lines 131-136: the attributes stored on the model. *)
Definition store (self0 : MF) (s : fit_state) : MF :=
  {| k := k self0; max_iter := max_iter self0;
     learning_rate := learning_rate self0; lambda_reg := lambda_reg self0;
     use_bias := use_bias self0; early_stop := early_stop self0;
     verbose := verbose self0; fitted := true;
     train_set := train_set self0;
     u_factors := Some (st_u_factors s);
     i_factors := Some (st_i_factors s);
     u_biases := if use_bias self0 then st_u_biases s else u_biases self0;
     i_biases := if use_bias self0 then st_i_biases s else i_biases self0 |}.
End Fit.

(** What a call of [fit] leaves behind: the model as mutated, what was
    printed, and the exception if one was raised. *)
Record fit_outcome : Type := {
  model : MF;
  stdout : list event;
  raised : option exception
}.

Definition fit (self : MF) (ts : TrainSet) (u_draw i_draw : nat -> nat -> float)
  : fit_outcome :=
  let self1 := Recommender_fit self ts in
  match fit_init self1 ts u_draw i_draw with
  | Raise e => {| model := self1; stdout := []; raised := Some e |}
  | Ok s0 =>
      let s := fit_loop self1 ts s0 in
      {| model := store self1 s; stdout := st_stdout s; raised := None |}
  end.

(** ** [MF.score] *)

Definition not_fitted_msg : string := "You need to fit the model first!".

Definition score (self : MF) (user_id item_id : nat) : result float :=
  if negb (fitted self) then Raise (ValueError not_fitted_msg) else
  ts ← getattr "train_set" (train_set self);
  let unk_user := is_unk_user ts user_id in
  let unk_item := is_unk_item ts item_id in
  if use_bias self then
    let score_pred := global_mean ts in
    score_pred ←
      (if negb unk_user then
         b ← getattr "u_biases" (u_biases self);
         x ← getitem b user_id;
         Ok (score_pred + x)%float
       else Ok score_pred);
    score_pred ←
      (if negb unk_item then
         b ← getattr "i_biases" (i_biases self);
         x ← getitem b item_id;
         Ok (score_pred + x)%float
       else Ok score_pred);
    if negb unk_user && negb unk_item then
      U ← getattr "u_factors" (u_factors self);
      p ← getitem U user_id;
      I ← getattr "i_factors" (i_factors self);
      q ← getitem I item_id;
      Ok (score_pred + dot p q)%float
    else Ok score_pred
  else
    if unk_user || unk_item then Raise (ScoreException user_id item_id)
    else
      U ← getattr "u_factors" (u_factors self);
      p ← getitem U user_id;
      I ← getattr "i_factors" (i_factors self);
      q ← getitem I item_id;
      Ok (dot p q).

(** ** [MF.rank] *)

(** Modelled from the spec: [intersects] of [cornac.utils.generic_utils],
    which is not part of the sources at hand; it filters its first
    argument down to the members of the second, keeping their order. *)
Definition intersects (x y : list nat) : list nat :=
  filter (fun a => a ∈ y) x.

(** Python's [max] of a sequence. *)
Definition py_max (l : list nat) : result nat :=
  match l with
  | [] => Raise (ValueError "max() arg is an empty sequence")
  | a :: l' => Ok (foldl Nat.max a l')
  end.

(** [dst[:stop] = src] for 1-d arrays: the lengths agree, or [src] has one
    element, which is repeated. *)
Definition assign_prefix (dst : vector) (stop : nat) (src : vector) : result vector :=
  let n := stop `min` length dst in
  if decide (length src = n) then Ok (src ++ drop n dst)
  else match src with
       | [x] => Ok (replicate n x ++ drop n dst)
       | _ => Raise (ValueError "could not broadcast input array")
       end.

Section Rank.
(** NumPy's [argsort] (the indices that sort an array in ascending
    order) and the base class's [default_rank] are used as they come. *)
Variable argsort : vector -> list nat.
Variable default_rank : MF -> option (list nat) -> result (list nat).

(** Lines 205-216, for a given score vector. *)
Definition rank_scores (ts : TrainSet) (known_item_scores : vector)
    (candidate_item_ids : option (list nat)) : result (list nat) :=
  match candidate_item_ids with
  | None => Ok (reverse (argsort known_item_scores))
  | Some cands =>
      m ← py_max cands;
      let n := num_items ts `max` (m + 1) in
      let pref_scores := (fun x => (x * min_rating ts)%float) <$> replicate n 1%float in
      pref_scores ← assign_prefix pref_scores (num_items ts) known_item_scores;
      let ranked_item_ids := reverse (argsort pref_scores) in
      Ok (intersects ranked_item_ids cands)
  end.

Definition rank (self : MF) (user_id : nat) (candidate_item_ids : option (list nat))
  : result (list nat) :=
  if negb (fitted self) then Raise (ValueError not_fitted_msg) else
  ts ← getattr "train_set" (train_set self);
  if is_unk_user ts user_id then
    if use_bias self then
      known_item_scores ← getattr "i_biases" (i_biases self);
      rank_scores ts known_item_scores candidate_item_ids
    else default_rank self candidate_item_ids
  else
    I ← getattr "i_factors" (i_factors self);
    U ← getattr "u_factors" (u_factors self);
    p ← getitem U user_id;
    rank_scores ts (matvec I p) candidate_item_ids.
End Rank.

(** * Properties *)

(** ** Construction *)

(** C9, as the code has it: the constructor checks nothing.  Whatever the
    arguments, it returns a model that holds them unchanged and is not
    fitted. *)
Theorem init_accepts_every_configuration :
  forall kk mi lr reg ub es vb,
    exists self, __init__ kk mi lr reg ub es vb = Ok self
      /\ k self = kk /\ max_iter self = mi /\ learning_rate self = lr
      /\ lambda_reg self = reg /\ use_bias self = ub /\ early_stop self = es
      /\ fitted self = false.
Proof. intros. eexists. repeat split. Qed.

(** C9, as stated, fails: a model with [k = 0], [max_iter = -3] and
    [lambda_reg = -1.] is constructed without any error. *)
Lemma init_invalid_configuration_not_rejected :
  ~ (forall kk mi lr reg ub es vb,
        ((kk <= 0)%Z \/ (mi <= 0)%Z \/ (reg <? 0)%float = true) ->
        exists e, __init__ kk mi lr reg ub es vb = Raise e).
Proof.
  intros H.
  destruct (H 0%Z (-3)%Z 0.01%float (-1)%float true false false) as [e He].
  - left. lia.
  - discriminate He.
Qed.

(** ** What [fit] keeps fixed *)

Lemma foldl_preserves {A B} (P : A -> Prop) (f : A -> B -> A) (l : list B) (a : A) :
  P a -> (forall a' b, P a' -> P (f a' b)) -> P (foldl f a l).
Proof.
  intros Ha Hf. revert a Ha.
  induction l as [|b l IH]; intros a Ha; simpl; auto.
Qed.

Lemma length_set2 M r c v : length (set2 M r c v) = length M.
Proof. unfold set2. apply length_alter. Qed.

(** The part of the state that no loop of [fit] writes: the number of rows
    of the two factor matrices and the two bias vectors. *)
Definition frame (s s' : fit_state) : Prop :=
  length (st_u_factors s') = length (st_u_factors s)
  /\ length (st_i_factors s') = length (st_i_factors s)
  /\ st_u_biases s' = st_u_biases s
  /\ st_i_biases s' = st_i_biases s.

Lemma frame_refl s : frame s s.
Proof. repeat split. Qed.

Lemma frame_trans s1 s2 s3 : frame s1 s2 -> frame s2 s3 -> frame s1 s3.
Proof.
  unfold frame. intros (?&?&?&?) (?&?&?&?).
  repeat split; congruence.
Qed.

Lemma update_factors_length self u i error fs UI :
  let UI' := foldl (update_factor self u i error) UI fs in
  length UI'.1 = length UI.1 /\ length UI'.2 = length UI.2.
Proof.
  apply (foldl_preserves
           (fun X => length X.1 = length UI.1 /\ length X.2 = length UI.2)).
  - split; reflexivity.
  - intros [U I] f [HU HI]. simpl in *.
    rewrite !length_set2. split; assumption.
Qed.

Lemma sgd_step_frame self ts s obs : frame s (sgd_step self ts s obs).
Proof.
  destruct obs as [[u i] r]. unfold frame, sgd_step. simpl.
  pose proof (update_factors_length self u i
    (r - predict self ts s u i)%float
    (seq 0 (Z.to_nat (k self))) (st_u_factors s, st_i_factors s)) as [HU HI].
  simpl in HU, HI. repeat split; assumption.
Qed.

Lemma print_frame self e s : frame s (print self e s).
Proof. unfold print. destruct (verbose self); repeat split. Qed.

Lemma epoch_frame self ts iter s : frame s (epoch self ts iter s).
Proof.
  unfold epoch.
  match goal with |- context [foldl _ ?s0 _] => set (start := s0) end.
  assert (frame start (foldl (sgd_step self ts) start (matrix_triples ts))) as H.
  { apply (foldl_preserves (frame start)); [apply frame_refl|].
    intros a b Ha. eapply frame_trans; [exact Ha | apply sgd_step_frame]. }
  destruct H as (?&?&?&?). repeat split; simpl; assumption.
Qed.

Lemma epochs_frame self ts iters s : frame s (epochs self ts iters s).
Proof.
  revert s. induction iters as [|iter rest IH]; intros s; simpl.
  - apply frame_refl.
  - destruct (stops self (epoch self ts iter s)).
    + eapply frame_trans; [apply epoch_frame | apply print_frame].
    + eapply frame_trans; [apply epoch_frame|].
      eapply frame_trans; [apply print_frame | apply IH].
Qed.

Lemma fit_loop_frame self ts s : frame s (fit_loop self ts s).
Proof.
  unfold fit_loop.
  eapply frame_trans; [apply epochs_frame | apply print_frame].
Qed.

(** [fit] raises exactly when [k] is negative (NumPy refuses the shape);
    otherwise it runs to the end. *)
Lemma fit_init_ok self ts u_draw i_draw :
  (0 <= k self)%Z ->
  exists s0, fit_init self ts u_draw i_draw = Ok s0
    /\ length (st_u_factors s0) = num_users ts
    /\ length (st_i_factors s0) = num_items ts
    /\ st_u_biases s0 = (if use_bias self then Some (np_zeros (num_users ts)) else None)
    /\ st_i_biases s0 = (if use_bias self then Some (np_zeros (num_items ts)) else None)
    /\ st_loss s0 = 0%float.
Proof.
  intros Hk. unfold fit_init, np_random_normal.
  destruct (Z.ltb_spec (k self) 0) as [Hneg|_]; [lia|].
  eexists. split; [reflexivity|]. simpl.
  rewrite !length_fmap, !length_seq. repeat split.
Qed.

Lemma fit_completes self ts u_draw i_draw :
  (0 <= k self)%Z ->
  exists s0,
    fit_init (Recommender_fit self ts) ts u_draw i_draw = Ok s0
    /\ fit self ts u_draw i_draw =
         let s := fit_loop (Recommender_fit self ts) ts s0 in
         {| model := store (Recommender_fit self ts) s;
            stdout := st_stdout s; raised := None |}.
Proof.
  intros Hk.
  destruct (fit_init_ok (Recommender_fit self ts) ts u_draw i_draw Hk)
    as (s0 & Hs0 & _).
  exists s0. split; [exact Hs0|]. unfold fit. rewrite Hs0. reflexivity.
Qed.

Lemma fit_raises_iff self ts u_draw i_draw :
  raised (fit self ts u_draw i_draw) = None <-> (0 <= k self)%Z.
Proof.
  split.
  - intros H. unfold fit, fit_init, np_random_normal in H. simpl in H.
    destruct (Z.ltb_spec (k self) 0) as [Hneg|Hpos]; [discriminate H | exact Hpos].
  - intros Hk. destruct (fit_completes self ts u_draw i_draw Hk) as (s0 & _ & ->).
    reflexivity.
Qed.

(** The attributes of a model on which [fit] has run to the end. *)
Lemma fit_attributes self ts u_draw i_draw :
  raised (fit self ts u_draw i_draw) = None ->
  let m := model (fit self ts u_draw i_draw) in
  fitted m = true /\ train_set m = Some ts /\ use_bias m = use_bias self
  /\ (exists U, u_factors m = Some U /\ length U = num_users ts)
  /\ (exists I, i_factors m = Some I /\ length I = num_items ts)
  /\ (use_bias self = true ->
      u_biases m = Some (np_zeros (num_users ts))
      /\ i_biases m = Some (np_zeros (num_items ts))).
Proof.
  intros Hr. apply fit_raises_iff in Hr.
  destruct (fit_completes self ts u_draw i_draw Hr) as (s0 & Hs0 & ->).
  destruct (fit_init_ok (Recommender_fit self ts) ts u_draw i_draw Hr)
    as (s0' & Hs0' & HU & HI & Hub & Hib & _).
  rewrite Hs0 in Hs0'. injection Hs0' as <-.
  destruct (fit_loop_frame (Recommender_fit self ts) ts s0) as (FU & FI & Fub & Fib).
  simpl. split; [reflexivity|]. split; [reflexivity|]. split; [reflexivity|].
  split; [|split].
  - eexists. split; [reflexivity|]. congruence.
  - eexists. split; [reflexivity|]. congruence.
  - intros Hb. rewrite Hb, Fub, Fib, Hub, Hib. simpl. rewrite Hb.
    split; reflexivity.
Qed.

(** ** [score] *)

(** The estimate of section 4.2 for bias mode, in the spec's words: start
    from the global mean, add the user's bias if the user is known, add
    the item's bias if the item is known, and add the dot product of the
    two factor rows only if both are known. *)
Definition biased_estimate (ts : TrainSet) (ub ib : vector) (U I : matrix)
    (user item : nat) : float :=
  let known_user := negb (is_unk_user ts user) in
  let known_item := negb (is_unk_item ts item) in
  let s := global_mean ts in
  let s := if known_user then (s + default 0 (ub !! user))%float else s in
  let s := if known_item then (s + default 0 (ib !! item))%float else s in
  if known_user && known_item
  then (s + dot (default [] (U !! user)) (default [] (I !! item)))%float
  else s.

Lemma getitem_lt {A} (a : list A) (i : nat) :
  i < length a -> exists x, a !! i = Some x /\ getitem a i = Ok x.
Proof.
  intros Hi. destruct (lookup_lt_is_Some_2 a i Hi) as [x Hx].
  exists x. split; [exact Hx|]. unfold getitem. rewrite Hx. reflexivity.
Qed.

(** C1. On a model that [fit] has trained in bias mode, [score] returns
    the global mean, plus the user's bias if the user is known, plus the
    item's bias if the item is known, plus the dot product of the factor
    rows exactly when both are known; it raises nothing, whether the user
    and the item are known or not.  (A known index lies within the
    dataset's counts.) *)
Theorem score_with_bias :
  forall self ts u_draw i_draw user item,
    raised (fit self ts u_draw i_draw) = None ->
    use_bias self = true ->
    (is_unk_user ts user = false -> user < num_users ts) ->
    (is_unk_item ts item = false -> item < num_items ts) ->
    let m := model (fit self ts u_draw i_draw) in
    exists ub ib U I,
      u_biases m = Some ub /\ length ub = num_users ts
      /\ i_biases m = Some ib /\ length ib = num_items ts
      /\ u_factors m = Some U /\ length U = num_users ts
      /\ i_factors m = Some I /\ length I = num_items ts
      /\ score m user item = Ok (biased_estimate ts ub ib U I user item).
Proof.
  intros self ts u_draw i_draw user item Hr Hb Hu Hi m.
  destruct (fit_attributes self ts u_draw i_draw Hr)
    as (Hf & Hts & Hub & (U & HU & HUl) & (I & HI & HIl) & Hbias).
  destruct (Hbias Hb) as [Hbu Hbi]. fold m in Hf, Hts, Hub, HU, HI, Hbu, Hbi.
  exists (np_zeros (num_users ts)), (np_zeros (num_items ts)), U, I.
  assert (length (np_zeros (num_users ts)) = num_users ts) as Lu
    by apply length_replicate.
  assert (length (np_zeros (num_items ts)) = num_items ts) as Li
    by apply length_replicate.
  repeat (split; [assumption|]).
  unfold score, biased_estimate.
  rewrite Hf, Hts, Hub, Hb, Hbu, Hbi, HU, HI. simpl.
  destruct (is_unk_user ts user) eqn:Eu; destruct (is_unk_item ts item) eqn:Ei;
    simpl; try reflexivity.
  - destruct (getitem_lt (np_zeros (num_items ts)) item) as (x & Hx & ->);
      [rewrite Li; auto|].
    rewrite Hx. reflexivity.
  - destruct (getitem_lt (np_zeros (num_users ts)) user) as (x & Hx & ->);
      [rewrite Lu; auto|].
    rewrite Hx. reflexivity.
  - destruct (getitem_lt (np_zeros (num_users ts)) user) as (x & Hx & ->);
      [rewrite Lu; auto|].
    destruct (getitem_lt (np_zeros (num_items ts)) item) as (y & Hy & ->);
      [rewrite Li; auto|].
    destruct (getitem_lt U user) as (p & Hp & ->); [rewrite HUl; auto|].
    destruct (getitem_lt I item) as (q & Hq & ->); [rewrite HIl; auto|].
    rewrite Hx, Hy, Hp, Hq. reflexivity.
Qed.

(** C2. On a model that [fit] has trained with bias mode off, [score]
    raises [ScoreException], formatted with the two indices it was given,
    if and only if the user or the item is unknown; when both are known it
    returns the dot product of the two factor rows and nothing else. *)
Theorem score_without_bias :
  forall self ts u_draw i_draw user item,
    raised (fit self ts u_draw i_draw) = None ->
    use_bias self = false ->
    (is_unk_user ts user = false -> user < num_users ts) ->
    (is_unk_item ts item = false -> item < num_items ts) ->
    let m := model (fit self ts u_draw i_draw) in
    ((exists e, score m user item = Raise e)
       <-> is_unk_user ts user || is_unk_item ts item = true)
    /\ (is_unk_user ts user || is_unk_item ts item = true ->
        score m user item = Raise (ScoreException user item))
    /\ (is_unk_user ts user || is_unk_item ts item = false ->
        exists U I p q,
          u_factors m = Some U /\ U !! user = Some p
          /\ i_factors m = Some I /\ I !! item = Some q
          /\ score m user item = Ok (dot p q)).
Proof.
  intros self ts u_draw i_draw user item Hr Hb Hu Hi m.
  destruct (fit_attributes self ts u_draw i_draw Hr)
    as (Hf & Hts & Hub & (U & HU & HUl) & (I & HI & HIl) & _).
  fold m in Hf, Hts, Hub, HU, HI.
  assert (is_unk_user ts user || is_unk_item ts item = true ->
          score m user item = Raise (ScoreException user item)) as Hunk.
  { intros Hx. unfold score. rewrite Hf, Hts, Hub, Hb. simpl.
    rewrite Hx. reflexivity. }
  assert (is_unk_user ts user || is_unk_item ts item = false ->
          exists U I p q,
            u_factors m = Some U /\ U !! user = Some p
            /\ i_factors m = Some I /\ I !! item = Some q
            /\ score m user item = Ok (dot p q)) as Hknown.
  { intros Hx. apply orb_false_iff in Hx as [Eu Ei].
    destruct (getitem_lt U user) as (p & Hp & Gp); [rewrite HUl; auto|].
    destruct (getitem_lt I item) as (q & Hq & Gq); [rewrite HIl; auto|].
    exists U, I, p, q. repeat (split; [assumption|]).
    unfold score. rewrite Hf, Hts, Hub, Hb, HU, HI. simpl.
    rewrite Eu, Ei. simpl. rewrite Gp. simpl. rewrite Gq. reflexivity. }
  split; [|split; assumption].
  split.
  - intros [e He].
    destruct (is_unk_user ts user || is_unk_item ts item) eqn:Ex; [reflexivity|].
    destruct (Hknown eq_refl) as (?&?&?&?&_&_&_&_&Hs). congruence.
  - intros Hx. eexists. apply Hunk, Hx.
Qed.

(** ** The bias vectors *)

(** C4. In bias mode, [fit] creates the two bias vectors as zeros, none of
    its loops writes them (whatever the number of epochs and the observed
    ratings), and the vectors it stores on the model are all zeros. *)
Theorem fit_biases_stay_zero :
  forall self ts u_draw i_draw,
    use_bias self = true ->
    (0 <= k self)%Z ->
    (exists s0, fit_init (Recommender_fit self ts) ts u_draw i_draw = Ok s0
       /\ st_u_biases s0 = Some (replicate (num_users ts) 0%float)
       /\ st_i_biases s0 = Some (replicate (num_items ts) 0%float))
    /\ (forall iters s,
          st_u_biases (epochs (Recommender_fit self ts) ts iters s) = st_u_biases s
          /\ st_i_biases (epochs (Recommender_fit self ts) ts iters s) = st_i_biases s)
    /\ raised (fit self ts u_draw i_draw) = None
    /\ u_biases (model (fit self ts u_draw i_draw))
       = Some (replicate (num_users ts) 0%float)
    /\ i_biases (model (fit self ts u_draw i_draw))
       = Some (replicate (num_items ts) 0%float).
Proof.
  intros self ts u_draw i_draw Hb Hk.
  assert (raised (fit self ts u_draw i_draw) = None) as Hr
    by (apply fit_raises_iff; exact Hk).
  split; [|split; [|split; [exact Hr|]]].
  - destruct (fit_init_ok (Recommender_fit self ts) ts u_draw i_draw Hk)
      as (s0 & Hs0 & _ & _ & Hub & Hib & _).
    simpl in Hub, Hib. rewrite Hb in Hub, Hib.
    exists s0. repeat split; assumption.
  - intros iters s.
    destruct (epochs_frame (Recommender_fit self ts) ts iters s) as (_ & _ & Hu & Hi).
    split; assumption.
  - destruct (fit_attributes self ts u_draw i_draw Hr) as (_ & _ & _ & _ & _ & Hz).
    exact (Hz Hb).
Qed.

(** ** Untrained models *)

(** A model on which no call of [fit] has run to the end: it comes from
    the constructor, possibly followed by calls of [fit] that raised. *)
Inductive never_fitted : MF -> Prop :=
| never_fitted_new kk mi lr reg ub es vb self :
    __init__ kk mi lr reg ub es vb = Ok self ->
    never_fitted self
| never_fitted_failed self ts u_draw i_draw e :
    never_fitted self ->
    raised (fit self ts u_draw i_draw) = Some e ->
    never_fitted (model (fit self ts u_draw i_draw)).

Lemma never_fitted_flag self : never_fitted self -> fitted self = false.
Proof.
  induction 1 as [kk mi lr reg ub es vb self Hinit
                 | self ts u_draw i_draw e Hnf IH Hraised].
  - injection Hinit as <-. reflexivity.
  - unfold fit in *.
    destruct (fit_init (Recommender_fit self ts) ts u_draw i_draw);
      simpl in *; [discriminate Hraised | exact IH].
Qed.

(** C5. On a model on which no call of [fit] has run to the end, [score]
    and [rank] raise the "fit the model first" error, whatever their
    arguments; they return no value and raise nothing else. *)
Theorem untrained_model_raises :
  forall argsort default_rank self,
    never_fitted self ->
    (forall user item,
        score self user item = Raise (ValueError not_fitted_msg))
    /\ (forall user cands,
          rank argsort default_rank self user cands
          = Raise (ValueError not_fitted_msg)).
Proof.
  intros argsort default_rank self Hnf.
  apply never_fitted_flag in Hnf.
  split; intros; [unfold score | unfold rank]; rewrite Hnf; reflexivity.
Qed.

(** ** [rank] for an unknown user *)

(** The model with its attribute [u_factors] replaced (or removed). *)
Definition with_u_factors (X : option matrix) (self : MF) : MF :=
  {| k := k self; max_iter := max_iter self;
     learning_rate := learning_rate self; lambda_reg := lambda_reg self;
     use_bias := use_bias self; early_stop := early_stop self;
     verbose := verbose self; fitted := fitted self;
     train_set := train_set self; u_factors := X;
     i_factors := i_factors self; u_biases := u_biases self;
     i_biases := i_biases self |}.

(** C8. For a trained model and an unknown user, [rank] ranks by the item
    bias vector alone in bias mode, and returns whatever [default_rank]
    returns when bias mode is off.  Neither case reads the user factors:
    the same holds with that attribute replaced by anything, or absent. *)
Theorem rank_unknown_user :
  forall argsort default_rank self ts u_draw i_draw user cands,
    raised (fit self ts u_draw i_draw) = None ->
    is_unk_user ts user = true ->
    let m := model (fit self ts u_draw i_draw) in
    (use_bias self = true ->
     exists ib, i_biases m = Some ib
       /\ forall X, rank argsort default_rank (with_u_factors X m) user cands
                    = rank_scores argsort ts ib cands)
    /\ (use_bias self = false ->
        forall X, rank argsort default_rank (with_u_factors X m) user cands
                  = default_rank (with_u_factors X m) cands)
    /\ with_u_factors (u_factors m) m = m.
Proof.
  intros argsort default_rank self ts u_draw i_draw user cands Hr Hunk m.
  destruct (fit_attributes self ts u_draw i_draw Hr)
    as (Hf & Hts & Hub & _ & _ & Hbias).
  fold m in Hf, Hts, Hub, Hbias.
  split; [|split].
  - intros Hb. destruct (Hbias Hb) as [_ Hib].
    exists (np_zeros (num_items ts)). split; [exact Hib|].
    intros X. unfold rank. simpl.
    rewrite Hf, Hts, Hub, Hb, Hib. simpl. rewrite Hunk. reflexivity.
  - intros Hb X. unfold rank. simpl.
    rewrite Hf, Hts, Hub, Hb. simpl. rewrite Hunk. reflexivity.
  - destruct m. reflexivity.
Qed.

(** ** The SGD step *)

(** A [rows] x [cols] array. *)
Definition has_shape (M : matrix) (rows cols : nat) : Prop :=
  length M = rows /\ forall r row, M !! r = Some row -> length row = cols.

Lemma has_shape_lookup M rows cols r c :
  has_shape M rows cols -> r < rows -> c < cols ->
  exists row, M !! r = Some row /\ c < length row.
Proof.
  intros [Hlen Hrow] Hr Hc.
  destruct (lookup_lt_is_Some_2 M r) as [row Hlk]; [lia|].
  exists row. split; [exact Hlk|]. rewrite (Hrow r row Hlk). exact Hc.
Qed.

Lemma set2_has_shape M rows cols r c v :
  has_shape M rows cols -> has_shape (set2 M r c v) rows cols.
Proof.
  intros [Hlen Hrow]. split; [rewrite length_set2; exact Hlen|].
  intros r' row Hlk. unfold set2 in Hlk.
  destruct (decide (r = r')) as [<-|Hne].
  - rewrite list_lookup_alter_eq in Hlk.
    destruct (M !! r) as [row0|] eqn:E; simpl in Hlk; [|discriminate].
    injection Hlk as <-. rewrite length_insert. eauto.
  - rewrite list_lookup_alter_ne in Hlk by exact Hne. eauto.
Qed.

Lemma at2_set2_eq M rows cols r c v :
  has_shape M rows cols -> r < rows -> c < cols ->
  at2 (set2 M r c v) r c = v.
Proof.
  intros HM Hr Hc.
  destruct (has_shape_lookup M rows cols r c HM Hr Hc) as (row & Hlk & Hlt).
  unfold at2, set2. rewrite list_lookup_alter_eq, Hlk. simpl.
  rewrite list_lookup_insert_eq by exact Hlt. reflexivity.
Qed.

Lemma at2_set2_ne M r c v r' c' :
  r <> r' \/ c <> c' -> at2 (set2 M r c v) r' c' = at2 M r' c'.
Proof.
  intros Hne. unfold at2, set2.
  destruct (decide (r = r')) as [<-|Hr].
  - rewrite list_lookup_alter_eq.
    destruct (M !! r) as [row|]; simpl; [|reflexivity].
    rewrite list_lookup_insert_ne; [reflexivity|]. destruct Hne; congruence.
  - rewrite list_lookup_alter_ne by exact Hr. reflexivity.
Qed.

(** The loop of lines 111-115 over a list [fs] of distinct latent
    dimensions: each of them is updated once, from the values that the two
    entries had before the loop; the other entries are left as they were. *)
Lemma update_factors_spec self u i error nu ni fs :
  NoDup fs ->
  forall U I,
    has_shape U nu (Z.to_nat (k self)) -> has_shape I ni (Z.to_nat (k self)) ->
    u < nu -> i < ni -> (forall f, f ∈ fs -> f < Z.to_nat (k self)) ->
    let UI' := foldl (update_factor self u i error) (U, I) fs in
    has_shape UI'.1 nu (Z.to_nat (k self))
    /\ has_shape UI'.2 ni (Z.to_nat (k self))
    /\ (forall f, f ∈ fs ->
          at2 UI'.1 u f
          = (at2 U u f + learning_rate self * (error * at2 I i f - lambda_reg self * at2 U u f))%float
          /\ at2 UI'.2 i f
             = (at2 I i f + learning_rate self * (error * at2 U u f - lambda_reg self * at2 I i f))%float)
    /\ (forall r c, r <> u \/ c ∉ fs -> at2 UI'.1 r c = at2 U r c)
    /\ (forall r c, r <> i \/ c ∉ fs -> at2 UI'.2 r c = at2 I r c).
Proof.
  induction 1 as [|a fs Ha Hnd IH]; intros U I HU HI Hu Hi Hfs.
  - split; [exact HU|]. split; [exact HI|]. split; [|split; reflexivity].
    intros f Hf. inversion Hf.
  - pose (U1 := set2 U u a
        (at2 U u a + learning_rate self * (error * at2 I i a - lambda_reg self * at2 U u a))%float).
    pose (I1 := set2 I i a
        (at2 I i a + learning_rate self * (error * at2 U u a - lambda_reg self * at2 I i a))%float).
    change (foldl (update_factor self u i error) (U, I) (a :: fs))
      with (foldl (update_factor self u i error) (U1, I1) fs).
    assert (has_shape U1 nu (Z.to_nat (k self))) as HU1
      by (apply set2_has_shape; exact HU).
    assert (has_shape I1 ni (Z.to_nat (k self))) as HI1
      by (apply set2_has_shape; exact HI).
    assert (a < Z.to_nat (k self)) as Hak by (apply Hfs; left).
    specialize (IH U1 I1 HU1 HI1 Hu Hi).
    destruct IH as (SU & SI & Hin & HoutU & HoutI).
    { intros f Hf. apply Hfs. right. exact Hf. }
    assert (forall c, c <> a -> at2 U1 u c = at2 U u c) as HU1ne.
    { intros c Hc. apply at2_set2_ne. right. congruence. }
    assert (forall c, c <> a -> at2 I1 i c = at2 I i c) as HI1ne.
    { intros c Hc. apply at2_set2_ne. right. congruence. }
    split; [exact SU|]. split; [exact SI|]. split; [|split].
    + intros f Hf. apply elem_of_cons in Hf as [->|Hf].
      * rewrite (HoutU u a), (HoutI i a) by (right; exact Ha).
        unfold U1, I1.
        rewrite (at2_set2_eq U nu _ u a _ HU Hu Hak).
        rewrite (at2_set2_eq I ni _ i a _ HI Hi Hak).
        split; reflexivity.
      * assert (f <> a) as Hfa by (intros ->; contradiction).
        destruct (Hin f Hf) as [E1 E2].
        rewrite E1, E2, (HU1ne f Hfa), (HI1ne f Hfa). split; reflexivity.
    + intros r c Hrc. rewrite HoutU.
      * apply at2_set2_ne. destruct Hrc as [Hr|Hc]; [left; congruence|].
        right. intros ->. apply Hc. left.
      * destruct Hrc as [Hr|Hc]; [left; exact Hr|].
        right. intros Hin'. apply Hc. right. exact Hin'.
    + intros r c Hrc. rewrite HoutI.
      * apply at2_set2_ne. destruct Hrc as [Hr|Hc]; [left; congruence|].
        right. intros ->. apply Hc. left.
      * destruct Hrc as [Hr|Hc]; [left; exact Hr|].
        right. intros Hin'. apply Hc. right. exact Hin'.
Qed.

(** C3. One SGD step, for an observed rating (u, i, r) and a latent
    dimension f: the new user factor and the new item factor are both
    computed from the two values held before the step, so the new user
    factor uses the old item factor and the new item factor the old user
    factor.  (The factor matrices have [k] columns and contain rows u and
    i, as they do throughout [fit].) *)
Theorem sgd_step_updates_simultaneously :
  forall self ts s u i r f nu ni,
    has_shape (st_u_factors s) nu (Z.to_nat (k self)) ->
    has_shape (st_i_factors s) ni (Z.to_nat (k self)) ->
    u < nu -> i < ni -> f < Z.to_nat (k self) ->
    let s' := sgd_step self ts s (u, i, r) in
    let error := (r - predict self ts s u i)%float in
    let u_f := at2 (st_u_factors s) u f in
    let i_f := at2 (st_i_factors s) i f in
    at2 (st_u_factors s') u f
    = (u_f + learning_rate self * (error * i_f - lambda_reg self * u_f))%float
    /\ at2 (st_i_factors s') i f
       = (i_f + learning_rate self * (error * u_f - lambda_reg self * i_f))%float.
Proof.
  intros self ts s u i r f nu ni HU HI Hu Hi Hf s' error u_f i_f.
  destruct (update_factors_spec self u i error nu ni (seq 0 (Z.to_nat (k self)))
              (NoDup_seq 0 _) (st_u_factors s) (st_i_factors s) HU HI Hu Hi)
    as (_ & _ & Hin & _).
  { intros c Hc. apply elem_of_seq in Hc. lia. }
  apply Hin. apply elem_of_seq. lia.
Qed.

(** ** The epoch loop *)

(** Lines 98-126 for an epoch whose test at line 120 fails: the epoch,
    then the progress line. *)
Definition epoch_logged (self : MF) (ts : TrainSet) (s : fit_state) (iter : nat)
  : fit_state :=
  let s' := epoch self ts iter s in
  print self (IterLoss iter (st_loss s')) s'.

(** The loop without its [break]: every epoch of [iters] runs. *)
Definition unbroken (self : MF) (ts : TrainSet) (iters : list nat) (s : fit_state)
  : fit_state :=
  foldl (epoch_logged self ts) s iters.

Lemma print_fields self e s :
  st_loss (print self e s) = st_loss s
  /\ st_last_loss (print self e s) = st_last_loss s
  /\ st_iter (print self e s) = st_iter s.
Proof. unfold print. destruct (verbose self); repeat split. Qed.

Lemma sgd_steps_fields self ts obs s :
  st_last_loss (foldl (sgd_step self ts) s obs) = st_last_loss s
  /\ st_iter (foldl (sgd_step self ts) s obs) = st_iter s.
Proof.
  apply (foldl_preserves
           (fun x => st_last_loss x = st_last_loss s /\ st_iter x = st_iter s)).
  - split; reflexivity.
  - intros a [[u i] r] Ha. exact Ha.
Qed.

Lemma epoch_fields self ts iter s :
  st_last_loss (epoch self ts iter s) = st_loss s
  /\ st_iter (epoch self ts iter s) = iter.
Proof.
  unfold epoch. simpl.
  match goal with |- context [foldl _ ?s0 _] =>
    destruct (sgd_steps_fields self ts (matrix_triples ts) s0) as [-> ->] end.
  split; reflexivity.
Qed.

(** The loop over [seq a N], cut at its first epoch whose test succeeds:
    [n] epochs run without stopping, and then either the list is
    exhausted or epoch [a + n] stops the loop. *)
Lemma epochs_seq_cases self ts N :
  forall a s,
  exists n, n <= N
    /\ (forall j, j < n ->
          stops self (epoch self ts (a + j) (unbroken self ts (seq a j) s)) = false)
    /\ ((n = N /\ epochs self ts (seq a N) s = unbroken self ts (seq a N) s)
        \/ (n < N
            /\ stops self (epoch self ts (a + n) (unbroken self ts (seq a n) s)) = true
            /\ epochs self ts (seq a N) s
               = print self EarlyStopping
                   (epoch self ts (a + n) (unbroken self ts (seq a n) s)))).
Proof.
  induction N as [|N IH]; intros a s.
  - exists 0. split; [lia|]. split; [intros j Hj; lia|]. left. split; reflexivity.
  - cbn [seq epochs].
    destruct (stops self (epoch self ts a s)) eqn:Estop.
    + exists 0. split; [lia|]. split; [intros j Hj; lia|].
      right. split; [lia|]. cbn [seq]. unfold unbroken at 1 2. cbn [foldl].
      rewrite Nat.add_0_r. split; [exact Estop | reflexivity].
    + destruct (IH (S a) (epoch_logged self ts s a)) as (n & Hn & Hbefore & Hend).
      exists (S n). split; [lia|]. split.
      * intros [|j] Hj.
        -- cbn [seq]. unfold unbroken. cbn [foldl]. rewrite Nat.add_0_r. exact Estop.
        -- cbn [seq]. unfold unbroken. cbn [foldl].
           replace (a + S j) with (S a + j) by lia.
           apply Hbefore. lia.
      * cbn [seq]. unfold unbroken at 1 2 3. cbn [foldl].
        replace (a + S n) with (S a + n) by lia.
        destruct Hend as [[-> Hrun] | (Hlt & Hstop & Hrun)].
        -- left. split; [reflexivity | exact Hrun].
        -- right. split; [lia|]. split; [exact Hstop | exact Hrun].
Qed.

Lemma unbroken_snoc self ts iters iter s :
  unbroken self ts (iters ++ [iter]) s
  = epoch_logged self ts (unbroken self ts iters s) iter.
Proof. unfold unbroken. apply foldl_snoc. Qed.

(** C6. The loop of [fit] over [range(1, max_iter + 1)], from any state
    [s0].  Write [after j] for the state at the end of epoch [j] (before
    the test of line 120) when no earlier epoch stopped the loop; its loss
    is half the epoch's sum of squared errors, and its [last_loss] is the
    loss of the epoch before.  The loop completes some number [c] of
    epochs, at most [max_iter].  No epoch before [c] passes the test
    [early_stop and |loss - last_loss| < 1e-5].  Either [c] is [max_iter]
    and the loop ran out, or epoch [c] passes the test and the loop ends
    there, epoch [c] included, without starting epoch [c + 1]. *)
Theorem epoch_loop_bound_and_early_stop :
  forall self ts s0,
    let N := Z.to_nat (max_iter self) in
    let after j := epoch self ts j (unbroken self ts (seq 1 (j - 1)) s0) in
    let final := epochs self ts (seq 1 N) s0 in
    (forall s, stops self s
               = early_stop self && (abs (st_loss s - st_last_loss s) <? 1e-5)%float)
    /\ (forall j, 1 <= j ->
          st_iter (after j) = j
          /\ st_last_loss (after j)
             = (if decide (j = 1) then st_loss s0 else st_loss (after (j - 1))))
    /\ exists c,
        c <= N
        /\ ((0 <= max_iter self)%Z -> (Z.of_nat c <= max_iter self)%Z)
        /\ (forall j, 1 <= j < c -> stops self (after j) = false)
        /\ ((c = N /\ final = unbroken self ts (seq 1 N) s0
             /\ (1 <= c -> st_iter final = c /\ stops self (after c) = false))
            \/ (1 <= c /\ stops self (after c) = true
                /\ final = print self EarlyStopping (after c)
                /\ st_iter final = c)).
Proof.
  intros self ts s0 N after final.
  split; [reflexivity|]. split.
  - intros j Hj. unfold after.
    destruct (epoch_fields self ts j (unbroken self ts (seq 1 (j - 1)) s0)) as [-> ->].
    split; [reflexivity|].
    destruct (decide (j = 1)) as [->|Hne]; [reflexivity|].
    replace (j - 1) with (S (j - 1 - 1)) at 1 by lia.
    rewrite seq_S, unbroken_snoc. unfold epoch_logged.
    destruct (print_fields self
                (IterLoss (1 + (j - 1 - 1))
                   (st_loss (epoch self ts (1 + (j - 1 - 1))
                                   (unbroken self ts (seq 1 (j - 1 - 1)) s0))))
                (epoch self ts (1 + (j - 1 - 1))
                       (unbroken self ts (seq 1 (j - 1 - 1)) s0))) as [-> _].
    replace (1 + (j - 1 - 1)) with (j - 1) by lia. reflexivity.
  - destruct (epochs_seq_cases self ts N 1 s0) as (n & Hn & Hbefore & Hend).
    assert (forall j, 1 <= j -> j - 1 < n -> stops self (after j) = false) as Hb.
    { intros j Hj Hlt. unfold after. specialize (Hbefore (j - 1) Hlt).
      replace (1 + (j - 1)) with j in Hbefore by lia. exact Hbefore. }
    destruct Hend as [[-> Hrun] | (Hlt & Hstop & Hrun)].
    + exists N. split; [lia|]. split; [lia|].
      split; [intros j Hj; apply Hb; lia|].
      left. split; [reflexivity|]. split; [exact Hrun|].
      intros Hc. split; [|apply Hb; lia].
      unfold final. rewrite Hrun.
      replace N with (S (N - 1)) at 1 by lia.
      rewrite seq_S, unbroken_snoc. unfold epoch_logged.
      match goal with |- st_iter (print _ ?e ?s) = _ =>
        destruct (print_fields self e s) as (_ & _ & ->) end.
      destruct (epoch_fields self ts (1 + (N - 1))
                  (unbroken self ts (seq 1 (N - 1)) s0)) as [_ ->].
      lia.
    + exists (S n). split; [lia|]. split; [lia|].
      split; [intros j Hj; apply Hb; lia|].
      right. split; [lia|].
      assert (after (S n) = epoch self ts (1 + n) (unbroken self ts (seq 1 n) s0)) as ->.
      { unfold after. replace (S n - 1) with n by lia. reflexivity. }
      split; [exact Hstop|]. split; [exact Hrun|].
      unfold final. rewrite Hrun.
      match goal with |- st_iter (print _ ?e ?s) = _ =>
        destruct (print_fields self e s) as (_ & _ & ->) end.
      destruct (epoch_fields self ts (1 + n) (unbroken self ts (seq 1 n) s0)) as [_ ->].
      reflexivity.
Qed.

(** ** Signs of binary64 sums of squares

    The loss is a sum of squares, scaled by one half.  In binary64 such a
    value is never negative: it is a zero, a positive number, [+oo], or a
    NaN.  This is read off the specification of the primitive operations
    ([SpecFloat]). *)

Definition SFnonneg (x : spec_float) : bool :=
  match x with
  | S754_zero _ | S754_nan => true
  | S754_infinity s | S754_finite s _ _ => negb s
  end.

Lemma binary_round_aux_nonneg m e l :
  SFnonneg (binary_round_aux prec emax false m e l) = true.
Proof.
  unfold binary_round_aux.
  destruct (shr_fexp prec emax m e l) as [mrs' e'].
  destruct (shr_fexp prec emax _ e' loc_Exact) as [mrs'' e''].
  destruct (shr_m mrs''); try reflexivity.
  destruct (Z.leb e'' (emax - prec)); reflexivity.
Qed.

Lemma binary_round_nonneg m e :
  SFnonneg (binary_round prec emax false m e) = true.
Proof.
  unfold binary_round.
  destruct (shl_align m e _) as [mz ez]. apply binary_round_aux_nonneg.
Qed.

Lemma SFmul_self_nonneg x : SFnonneg (SF64mul x x) = true.
Proof.
  destruct x as [s|s| |s m e]; try reflexivity; try (destruct s; reflexivity).
  unfold SF64mul. cbn [SFmul]. rewrite Bool.xorb_nilpotent.
  apply binary_round_aux_nonneg.
Qed.

Lemma SFmul_nonneg x y :
  SFnonneg x = true -> SFnonneg y = true -> SFnonneg (SF64mul x y) = true.
Proof.
  destruct x as [sx|sx| |sx mx ex], y as [sy|sy| |sy my ey];
    simpl; intros Hx Hy; try reflexivity;
    try (apply Bool.negb_true_iff in Hx; subst sx);
    try (apply Bool.negb_true_iff in Hy; subst sy); try reflexivity.
  apply binary_round_aux_nonneg.
Qed.

Lemma SFadd_nonneg x y :
  SFnonneg x = true -> SFnonneg y = true -> SFnonneg (SF64add x y) = true.
Proof.
  destruct x as [sx|sx| |sx mx ex], y as [sy|sy| |sy my ey];
    simpl; intros Hx Hy; try reflexivity;
    try (apply Bool.negb_true_iff in Hx; subst sx);
    try (apply Bool.negb_true_iff in Hy; subst sy);
    try reflexivity; try (destruct sx; reflexivity); try (destruct sy; reflexivity).
  - destruct sx, sy; reflexivity.
  - apply binary_round_nonneg.
Qed.

Lemma SFltb_abs_sub_zero x t :
  SFnonneg x = true -> SFltb x t = true ->
  SFltb (SFabs (SF64sub x (S754_zero false))) t = true.
Proof.
  destruct x as [s|s| |s m e]; simpl; intros Hx Hlt.
  - destruct s; exact Hlt.
  - apply Bool.negb_true_iff in Hx. subst s. exact Hlt.
  - discriminate Hlt.
  - apply Bool.negb_true_iff in Hx. subst s. exact Hlt.
Qed.

(** The same on the primitive type. *)
Definition nonneg_or_nan (x : float) : Prop := SFnonneg (Prim2SF x) = true.

Lemma nonneg_or_nan_zero : nonneg_or_nan 0%float.
Proof. reflexivity. Qed.

Lemma nonneg_or_nan_add_square x e :
  nonneg_or_nan x -> nonneg_or_nan (x + e * e)%float.
Proof.
  unfold nonneg_or_nan. intros Hx. rewrite add_spec, mul_spec.
  apply SFadd_nonneg; [exact Hx | apply SFmul_self_nonneg].
Qed.

Lemma nonneg_or_nan_half x :
  nonneg_or_nan x -> nonneg_or_nan (0.5 * x)%float.
Proof.
  unfold nonneg_or_nan. intros Hx. rewrite mul_spec.
  apply SFmul_nonneg; [reflexivity | exact Hx].
Qed.

Lemma ltb_abs_sub_zero x t :
  nonneg_or_nan x -> (x <? t)%float = true -> (abs (x - 0) <? t)%float = true.
Proof.
  unfold nonneg_or_nan. intros Hx Hlt.
  rewrite ltb_spec in *. rewrite abs_spec, sub_spec.
  change (Prim2SF 0%float) with (S754_zero false).
  apply SFltb_abs_sub_zero; assumption.
Qed.

Lemma sgd_steps_loss_nonneg self ts obs s :
  nonneg_or_nan (st_loss s) ->
  nonneg_or_nan (st_loss (foldl (sgd_step self ts) s obs)).
Proof.
  intros Hs.
  apply (foldl_preserves (fun x => nonneg_or_nan (st_loss x))); [exact Hs|].
  intros a [[u i] r] Ha. simpl. apply nonneg_or_nan_add_square. exact Ha.
Qed.

Lemma epoch_loss_nonneg self ts iter s :
  nonneg_or_nan (st_loss (epoch self ts iter s)).
Proof.
  unfold epoch. simpl. apply nonneg_or_nan_half.
  apply sgd_steps_loss_nonneg. simpl. apply nonneg_or_nan_zero.
Qed.

(** C10. With early stopping on and [max_iter] at least 1: the loss of
    the first epoch is compared with a previous loss of [0.], so when that
    loss (half the first epoch's sum of squared errors) is below [1e-5],
    the loop ends with the first epoch, whatever [max_iter] is, and [fit]
    stores the factors as that epoch left them. *)
Theorem fit_stops_after_first_epoch :
  forall self ts u_draw i_draw s0,
    let self1 := Recommender_fit self ts in
    fit_init self1 ts u_draw i_draw = Ok s0 ->
    early_stop self = true ->
    (1 <= max_iter self)%Z ->
    (st_loss (epoch self1 ts 1 s0) <? 1e-5)%float = true ->
    let final := epochs self1 ts (seq 1 (Z.to_nat (max_iter self))) s0 in
    st_last_loss (epoch self1 ts 1 s0) = 0%float
    /\ final = print self1 EarlyStopping (epoch self1 ts 1 s0)
    /\ st_iter final = 1
    /\ model (fit self ts u_draw i_draw)
       = store self1 (print self1 OptimizationFinished final)
    /\ raised (fit self ts u_draw i_draw) = None.
Proof.
  intros self ts u_draw i_draw s0 self1 Hinit Hes Hmax Hloss final.
  assert (st_loss s0 = 0%float) as Hl0.
  { unfold fit_init in Hinit.
    destruct (np_random_normal u_draw (num_users ts) (k self1)); [|discriminate].
    destruct (np_random_normal i_draw (num_items ts) (k self1)); [|discriminate].
    simpl in Hinit. injection Hinit as <-. reflexivity. }
  destruct (epoch_fields self1 ts 1 s0) as [Hlast Hiter].
  rewrite Hl0 in Hlast.
  assert (stops self1 (epoch self1 ts 1 s0) = true) as Hstop.
  { unfold stops, delta_loss. rewrite Hlast.
    change (early_stop self1) with (early_stop self). rewrite Hes. simpl.
    apply ltb_abs_sub_zero; [apply epoch_loss_nonneg | exact Hloss]. }
  assert (final = print self1 EarlyStopping (epoch self1 ts 1 s0)) as Hfinal.
  { unfold final. change (max_iter self1) with (max_iter self).
    replace (Z.to_nat (max_iter self)) with (S (Z.to_nat (max_iter self) - 1)) by lia.
    cbn [seq epochs]. rewrite Hstop. reflexivity. }
  split; [exact Hlast|]. split; [exact Hfinal|]. split.
  - rewrite Hfinal.
    destruct (print_fields self1 EarlyStopping (epoch self1 ts 1 s0)) as (_ & _ & ->).
    exact Hiter.
  - unfold fit. fold self1. rewrite Hinit. split; reflexivity.
Qed.

(** ** Multiplying by one

    [np.ones(n) * min_rating] multiplies each [1.] by the minimum rating.
    In binary64 that product is the rating itself, for every value
    (zeros, infinities and NaN included). *)

Lemma shr_fexp_canonical m e :
  canonical_mantissa prec emax m e = true ->
  shr_fexp prec emax (Z.pos m) e loc_Exact
  = ({| shr_m := Z.pos m; shr_r := false; shr_s := false |}, e).
Proof.
  unfold canonical_mantissa. intros Hc. apply Z.eqb_eq in Hc.
  unfold shr_fexp. cbn [Zdigits2]. rewrite Hc, Z.sub_diag. reflexivity.
Qed.

Lemma shr_fexp_times_2p52 m e :
  canonical_mantissa prec emax m e = true ->
  shr_fexp prec emax (Z.pos (4503599627370496 * m)) (-52 + e) loc_Exact
  = ({| shr_m := Z.pos m; shr_r := false; shr_s := false |}, e).
Proof.
  unfold canonical_mantissa. intros Hc. apply Z.eqb_eq in Hc.
  unfold shr_fexp.
  let t := eval lazy beta iota delta [Pos.mul] in (4503599627370496 * m)%positive in
  change (4503599627370496 * m)%positive with t.
  cbn [Zdigits2 digits2_pos].
  set (d := digits2_pos m) in *.
  match goal with |- context [fexp prec emax (Z.pos ?p + ?q)] =>
    replace (Z.pos p + q)%Z with (Z.pos d + e)%Z by lia end.
  rewrite Hc.
  replace (e - (-52 + e))%Z with 52%Z by lia.
  cbn [shr shr_record_of_loc iter_pos shr_1 orb].
  replace (-52 + e + 52)%Z with e by lia.
  reflexivity.
Qed.

Lemma SFmul_one_finite s m e :
  bounded prec emax m e = true ->
  SF64mul (Prim2SF 1%float) (S754_finite s m e) = S754_finite s m e.
Proof.
  intros Hb. unfold bounded in Hb.
  apply andb_prop in Hb as [Hc He].
  change (Prim2SF 1%float) with (S754_finite false 4503599627370496 (-52)).
  unfold SF64mul. cbn [SFmul xorb].
  unfold binary_round_aux.
  rewrite (shr_fexp_times_2p52 m e Hc).
  cbn [shr_m loc_of_shr_record round_nearest_even].
  rewrite (shr_fexp_canonical m e Hc).
  cbn [shr_m]. rewrite He. reflexivity.
Qed.

Lemma float_mul_1_l x : (1 * x)%float = x.
Proof.
  apply Prim2SF_inj. rewrite mul_spec.
  pose proof (Prim2SF_valid x) as Hv.
  destruct (Prim2SF x) as [s|s| |s m e]; try reflexivity.
  apply SFmul_one_finite. exact Hv.
Qed.

(** ** [rank] over a candidate list *)

Lemma foldl_max a l : foldl Nat.max a l = a `max` max_list l.
Proof.
  revert a. induction l as [|b l IH]; intros a; simpl; [lia|].
  rewrite IH. lia.
Qed.

Lemma py_max_nonempty l : l <> [] -> py_max l = Ok (max_list l).
Proof.
  destruct l as [|a l]; [congruence|]. intros _. simpl.
  rewrite foldl_max. reflexivity.
Qed.

Lemma assign_prefix_replicate n x stop src :
  length src = stop -> stop <= n ->
  assign_prefix (replicate n x) stop src = Ok (src ++ replicate (n - stop) x).
Proof.
  intros Hlen Hle. unfold assign_prefix. rewrite length_replicate.
  replace (stop `min` n) with stop by lia.
  destruct (decide (length src = stop)) as [_|Hne]; [|contradiction].
  rewrite drop_replicate. reflexivity.
Qed.

Lemma StronglySorted_sublist {A} (R : A -> A -> Prop) l1 l2 :
  l1 `sublist_of` l2 -> StronglySorted R l2 -> StronglySorted R l1.
Proof.
  induction 1 as [|x l1 l2 Hsub IH|x l1 l2 Hsub IH]; intros Hs.
  - constructor.
  - apply StronglySorted_cons in Hs as [Hall Hs].
    apply StronglySorted_cons. split; [|apply IH, Hs].
    eapply Forall_forall. intros y Hy.
    eapply Forall_forall in Hall; [exact Hall|].
    eapply elem_of_sublist; eassumption.
  - apply StronglySorted_cons in Hs as [_ Hs]. apply IH, Hs.
Qed.

Lemma StronglySorted_reverse {A} (R : A -> A -> Prop) l :
  StronglySorted R l -> StronglySorted (fun a b => R b a) (reverse l).
Proof.
  induction 1 as [|x l Hs IH Hall]; [constructor|].
  rewrite reverse_cons. apply StronglySorted_app. split; [|split].
  - intros a b Ha Hb. apply list_elem_of_singleton in Hb as ->.
    rewrite elem_of_reverse in Ha.
    rewrite Forall_forall in Hall. apply Hall, Ha.
  - exact IH.
  - repeat constructor.
Qed.

(** The score vector that [rank] computes for a known user: the product
    of the item factor matrix with the user's factor row. *)
Definition known_user_scores (self : MF) (user : nat) : vector :=
  matvec (default [] (i_factors self)) (default [] (u_factors self ≫= (.!! user))).

(** The extension of section 4.3, in the spec's words: the score vector,
    extended if necessary to cover the largest candidate index, the extra
    slots holding the dataset's minimum rating. *)
Definition padded_scores (ts : TrainSet) (scores : vector) (cands : list nat) : vector :=
  scores ++ replicate (S (max_list cands) - num_items ts) (min_rating ts).

(** Index [a] is listed before index [b] only if [b]'s score is not below
    [a]'s (ascending), or not above it (descending). *)
Definition ascending (v : vector) (l : list nat) : Prop :=
  StronglySorted
    (fun a b => (default 0 (v !! b) <? default 0 (v !! a))%float = false) l.

Definition descending (v : vector) (l : list nat) : Prop :=
  StronglySorted
    (fun a b => (default 0 (v !! a) <? default 0 (v !! b))%float = false) l.

(** C7. For a trained model, a known user and a non-empty list of
    distinct candidates: [rank] extends the user's score vector up to the
    largest candidate index when that index is past [num_items], the extra
    slots holding the dataset's minimum rating; it orders all the indices
    of the extended vector by descending score ([argsort], reversed); and
    it returns the candidates, each once, in the order they have in that
    ranking.  ([argsort] returns the indices of its argument in ascending
    order, as NumPy's does; [intersects] is taken from the spec.) *)
Theorem rank_known_user_candidates :
  forall argsort default_rank self ts u_draw i_draw user cands,
    raised (fit self ts u_draw i_draw) = None ->
    is_unk_user ts user = false ->
    user < num_users ts ->
    cands <> [] ->
    NoDup cands ->
    let m := model (fit self ts u_draw i_draw) in
    let scores := known_user_scores m user in
    let pref := padded_scores ts scores cands in
    argsort pref ≡ₚ seq 0 (length pref) ->
    ascending pref (argsort pref) ->
    (exists U I p,
        u_factors m = Some U /\ U !! user = Some p /\ i_factors m = Some I
        /\ scores = matvec I p /\ length scores = num_items ts)
    /\ length pref = num_items ts `max` S (max_list cands)
    /\ (forall j, j < num_items ts -> pref !! j = scores !! j)
    /\ (forall j, num_items ts <= j < length pref -> pref !! j = Some (min_rating ts))
    /\ exists ranked,
        rank argsort default_rank m user (Some cands) = Ok ranked
        /\ ranked = filter (fun a => a ∈ cands) (reverse (argsort pref))
        /\ descending pref (reverse (argsort pref))
        /\ reverse (argsort pref) ≡ₚ seq 0 (length pref)
        /\ ranked `sublist_of` reverse (argsort pref)
        /\ descending pref ranked
        /\ NoDup ranked
        /\ (forall x, x ∈ ranked <-> x ∈ cands).
Proof.
  intros argsort default_rank self ts u_draw i_draw user cands
         Hr Hknown Huser Hne Hnd m scores pref Hperm Hasc.
  destruct (fit_attributes self ts u_draw i_draw Hr)
    as (Hf & Hts & Hub & (U & HU & HUl) & (I & HI & HIl) & _).
  fold m in Hf, Hts, Hub, HU, HI.
  destruct (getitem_lt U user) as (p & Hp & Gp); [lia|].
  assert (scores = matvec I p) as Hscores.
  { unfold scores, known_user_scores. rewrite HU, HI. simpl. rewrite Hp. reflexivity. }
  assert (length scores = num_items ts) as Hlen.
  { rewrite Hscores. unfold matvec. rewrite length_fmap. exact HIl. }
  assert (length pref = num_items ts `max` S (max_list cands)) as Hplen.
  { unfold pref, padded_scores. rewrite length_app, length_replicate. lia. }
  split; [exists U, I, p; repeat split; assumption|].
  split; [exact Hplen|]. split; [|split].
  - intros j Hj. unfold pref, padded_scores. apply lookup_app_l. lia.
  - intros j Hj. unfold pref, padded_scores.
    rewrite lookup_app_r by lia. apply lookup_replicate_2.
    rewrite Hplen in Hj. lia.
  - exists (filter (fun a => a ∈ cands) (reverse (argsort pref))).
    assert (descending pref (reverse (argsort pref))) as Hdesc
      by (apply StronglySorted_reverse in Hasc; exact Hasc).
    assert (filter (fun a => a ∈ cands) (reverse (argsort pref))
              `sublist_of` reverse (argsort pref)) as Hsub
      by apply sublist_filter.
    assert (reverse (argsort pref) ≡ₚ seq 0 (length pref)) as Hrperm
      by (rewrite reverse_Permutation; exact Hperm).
    split; [|split; [reflexivity|split; [exact Hdesc|split; [exact Hrperm|
            split; [exact Hsub|split; [|split]]]]]].
    + unfold rank. rewrite Hf, Hts. simpl. rewrite Hknown, HI, HU. simpl.
      rewrite Gp. simpl. unfold rank_scores.
      rewrite (py_max_nonempty cands Hne). simpl.
      rewrite fmap_replicate, float_mul_1_l.
      rewrite assign_prefix_replicate;
        [|rewrite <- Hscores; exact Hlen|apply Nat.le_max_l].
      simpl. unfold intersects. do 3 f_equal.
      unfold pref, padded_scores. rewrite Hscores. do 3 f_equal. lia.
    + eapply StronglySorted_sublist; [exact Hsub | exact Hdesc].
    + apply NoDup_filter. rewrite Hrperm. apply NoDup_seq.
    + intros x. rewrite list_elem_of_filter. split; [intros [Hx _]; exact Hx|].
      intros Hx. split; [exact Hx|].
      rewrite Hrperm. apply elem_of_seq.
      pose proof (max_list_elem_of_le x cands Hx). lia.
Qed.

(** ** The shape of the factor matrices throughout [fit] *)

Lemma has_shape_Forall M rows cols :
  length M = rows -> Forall (fun row => length row = cols) M ->
  has_shape M rows cols.
Proof.
  intros Hlen Hall. split; [exact Hlen|].
  intros r row Hlk. rewrite Forall_forall in Hall.
  apply Hall. eapply list_elem_of_lookup_2. exact Hlk.
Qed.

Lemma np_random_normal_has_shape draw rows cols M :
  np_random_normal draw rows cols = Ok M -> has_shape M rows (Z.to_nat cols).
Proof.
  unfold np_random_normal. destruct (cols <? 0)%Z; [discriminate|].
  intros H. injection H as <-. apply has_shape_Forall.
  - rewrite length_fmap, length_seq. reflexivity.
  - apply Forall_fmap, Forall_forall. intros r _. simpl.
    rewrite length_fmap, length_seq. reflexivity.
Qed.

Definition state_has_shape (self : MF) (ts : TrainSet) (s : fit_state) : Prop :=
  has_shape (st_u_factors s) (num_users ts) (Z.to_nat (k self))
  /\ has_shape (st_i_factors s) (num_items ts) (Z.to_nat (k self)).

Lemma fit_init_has_shape self ts u_draw i_draw s0 :
  fit_init self ts u_draw i_draw = Ok s0 -> state_has_shape self ts s0.
Proof.
  unfold fit_init. intros H.
  destruct (np_random_normal u_draw (num_users ts) (k self)) as [U|] eqn:EU;
    [|discriminate].
  destruct (np_random_normal i_draw (num_items ts) (k self)) as [I|] eqn:EI;
    [|discriminate].
  simpl in H. injection H as <-.
  split; simpl; eapply np_random_normal_has_shape; eassumption.
Qed.

Lemma sgd_step_has_shape self ts s obs :
  state_has_shape self ts s -> state_has_shape self ts (sgd_step self ts s obs).
Proof.
  destruct obs as [[u i] r]. intros [HU HI]. unfold state_has_shape, sgd_step. simpl.
  apply (foldl_preserves
           (fun X => has_shape X.1 (num_users ts) (Z.to_nat (k self))
                     /\ has_shape X.2 (num_items ts) (Z.to_nat (k self)))).
  - split; assumption.
  - intros [U I] f [HU' HI']. simpl in *.
    split; apply set2_has_shape; assumption.
Qed.

Lemma print_has_shape self ts e s :
  state_has_shape self ts s -> state_has_shape self ts (print self e s).
Proof. unfold print. destruct (verbose self); intros H; exact H. Qed.

Lemma epoch_has_shape self ts iter s :
  state_has_shape self ts s -> state_has_shape self ts (epoch self ts iter s).
Proof.
  intros Hs. unfold epoch.
  match goal with |- context [foldl _ ?s0 _] => set (start := s0) end.
  assert (state_has_shape self ts (foldl (sgd_step self ts) start (matrix_triples ts))) as H.
  { apply (foldl_preserves (state_has_shape self ts)); [exact Hs|].
    intros a b Ha. apply sgd_step_has_shape. exact Ha. }
  exact H.
Qed.

Lemma epochs_has_shape self ts iters s :
  state_has_shape self ts s -> state_has_shape self ts (epochs self ts iters s).
Proof.
  revert s. induction iters as [|iter rest IH]; intros s Hs; simpl; [exact Hs|].
  destruct (stops self (epoch self ts iter s)).
  - apply print_has_shape, epoch_has_shape, Hs.
  - apply IH, print_has_shape, epoch_has_shape, Hs.
Qed.

(** * Worked instances *)

Module Sample.

(** Two users, three items, minimum rating 1 (the setting of the rank
    padding test of section 8); an index is unknown when it is past the
    dataset's count. *)
Definition ts : TrainSet :=
  {| num_users := 2; num_items := 3;
     global_mean := 3.5%float; min_rating := 1%float;
     matrix_triples := [(0, 0, 4%float); (0, 2, 2%float); (1, 1, 5%float)];
     is_unk_user := fun u => (2 <=? u)%nat;
     is_unk_item := fun i => (3 <=? i)%nat |}.

Definition u_draw (r c : nat) : float :=
  match r, c with
  | 0, 0 => 0.011 | 0, _ => (-0.004) | _, 0 => 0.02 | _, _ => 0.007
  end%float.

Definition i_draw (r c : nat) : float :=
  match r, c with
  | 0, _ => 0.013 | 1, 0 => (-0.009) | 1, _ => 0.001 | _, _ => 0.005
  end%float.

Definition new (use_bias early_stop : bool) : MF :=
  {| k := 2; max_iter := 20; learning_rate := 0.01%float;
     lambda_reg := 0.02%float; use_bias := use_bias;
     early_stop := early_stop; verbose := true; fitted := false;
     train_set := None; u_factors := None; i_factors := None;
     u_biases := None; i_biases := None |}.

(** An executable [argsort]: insertion of the indices, from the last to
    the first, each before the first index whose score is not smaller. *)
Fixpoint insert_index (v : vector) (i : nat) (l : list nat) : list nat :=
  match l with
  | [] => [i]
  | j :: l' =>
      if (default 0 (v !! i) <=? default 0 (v !! j))%float then i :: l
      else j :: insert_index v i l'
  end.

Definition argsort (v : vector) : list nat :=
  foldr (insert_index v) [] (seq 0 (length v)).

Definition default_rank (self : MF) (cands : option (list nat)) : result (list nat) :=
  Ok (default [] cands).


Lemma insert_index_Permutation v i l : insert_index v i l ≡ₚ i :: l.
Proof.
  induction l as [|j l IH]; simpl; [reflexivity|].
  destruct (default 0 (v !! i) <=? default 0 (v !! j))%float; [reflexivity|].
  rewrite IH. apply Permutation_swap.
Qed.

Lemma argsort_Permutation v : argsort v ≡ₚ seq 0 (length v).
Proof.
  unfold argsort. induction (seq 0 (length v)) as [|i l IH]; simpl; [reflexivity|].
  rewrite insert_index_Permutation, IH. reflexivity.
Qed.

(** One user, one item and one rating that the initial factors predict
    exactly: 2 * 2 = 4. *)
Definition exact_ts : TrainSet :=
  {| num_users := 1; num_items := 1;
     global_mean := 4%float; min_rating := 4%float;
     matrix_triples := [(0, 0, 4%float)];
     is_unk_user := fun u => (1 <=? u)%nat;
     is_unk_item := fun i => (1 <=? i)%nat |}.

Definition exact_draw (r c : nat) : float := 2%float.

Definition exact_new : MF :=
  {| k := 1; max_iter := 20; learning_rate := 0.01%float;
     lambda_reg := 0%float; use_bias := false;
     early_stop := true; verbose := true; fitted := false;
     train_set := None; u_factors := None; i_factors := None;
     u_biases := None; i_biases := None |}.

(** The model after [fit], in bias mode and without it. *)
Definition trained (use_bias : bool) : MF :=
  model (fit (new use_bias false) ts u_draw i_draw).

End Sample.

(** Closes a goal that holds by evaluation. *)
Ltac by_evaluation := vm_compute; first [reflexivity | exact I | lia | discriminate].

Ltac sorted_by_evaluation := vm_compute; repeat constructor.

Lemma score_with_bias_witness :
  exists ub ib U I,
    score (Sample.trained true) 0 7
    = Ok (biased_estimate Sample.ts ub ib U I 0 7)
    /\ score (Sample.trained true) 0 7 = Ok 3.5%float.
Proof.
  destruct (score_with_bias (Sample.new true false) Sample.ts
              Sample.u_draw Sample.i_draw 0 7)
    as (ub & ib & U & I & _ & _ & _ & _ & _ & _ & _ & _ & Hs).
  - by_evaluation.
  - by_evaluation.
  - intros _. by_evaluation.
  - intros H. vm_compute in H. discriminate H.
  - exists ub, ib, U, I. split; [exact Hs | by_evaluation].
Defined.

Lemma score_without_bias_witness :
  score (Sample.trained false) 0 7 = Raise (ScoreException 0 7)
  /\ exists U I p q,
       u_factors (Sample.trained false) = Some U /\ U !! 1 = Some p
       /\ i_factors (Sample.trained false) = Some I /\ I !! 2 = Some q
       /\ score (Sample.trained false) 1 2 = Ok (dot p q).
Proof.
  split.
  - destruct (score_without_bias (Sample.new false false) Sample.ts
                Sample.u_draw Sample.i_draw 0 7) as (_ & Hunk & _).
    + by_evaluation.
    + by_evaluation.
    + intros _. by_evaluation.
    + intros H. vm_compute in H. discriminate H.
    + apply Hunk. by_evaluation.
  - destruct (score_without_bias (Sample.new false false) Sample.ts
                Sample.u_draw Sample.i_draw 1 2) as (_ & _ & Hknown).
    + by_evaluation.
    + by_evaluation.
    + intros _. by_evaluation.
    + intros _. by_evaluation.
    + apply Hknown. by_evaluation.
Defined.

Lemma fit_biases_stay_zero_witness :
  u_biases (Sample.trained true) = Some [0; 0]%float
  /\ i_biases (Sample.trained true) = Some [0; 0; 0]%float.
Proof.
  destruct (fit_biases_stay_zero (Sample.new true false) Sample.ts
              Sample.u_draw Sample.i_draw) as (_ & _ & _ & Hu & Hi).
  - by_evaluation.
  - by_evaluation.
  - split; [exact Hu | exact Hi].
Defined.

Lemma untrained_model_raises_witness :
  score (Sample.new true false) 0 0 = Raise (ValueError not_fitted_msg)
  /\ rank Sample.argsort Sample.default_rank (Sample.new true false) 0 None
     = Raise (ValueError not_fitted_msg).
Proof.
  destruct (untrained_model_raises Sample.argsort Sample.default_rank
              (Sample.new true false)) as [Hs Hr].
  - apply (never_fitted_new 2 20 0.01 0.02 true false true). reflexivity.
  - split; [apply Hs | apply Hr].
Defined.

Lemma rank_unknown_user_witness :
  rank Sample.argsort Sample.default_rank (Sample.trained true) 9 (Some [5; 0; 2])
  = rank_scores Sample.argsort Sample.ts [0; 0; 0]%float (Some [5; 0; 2])
  /\ rank Sample.argsort Sample.default_rank (Sample.trained false) 9 (Some [5; 0; 2])
     = Sample.default_rank (Sample.trained false) (Some [5; 0; 2]).
Proof.
  split.
  - destruct (rank_unknown_user Sample.argsort Sample.default_rank
                (Sample.new true false) Sample.ts Sample.u_draw Sample.i_draw
                9 (Some [5; 0; 2])) as (Hbias & _ & Hsame).
    + by_evaluation.
    + by_evaluation.
    + destruct (Hbias eq_refl) as (ib & Hib & Hrank).
      change (model (fit (Sample.new true false) Sample.ts Sample.u_draw Sample.i_draw))
        with (Sample.trained true) in *.
      assert (ib = [0; 0; 0]%float) as -> by (vm_compute in Hib; congruence).
      rewrite <- Hsame. apply Hrank.
  - destruct (rank_unknown_user Sample.argsort Sample.default_rank
                (Sample.new false false) Sample.ts Sample.u_draw Sample.i_draw
                9 (Some [5; 0; 2])) as (_ & Hnobias & Hsame).
    + by_evaluation.
    + by_evaluation.
    + change (model (fit (Sample.new false false) Sample.ts Sample.u_draw Sample.i_draw))
        with (Sample.trained false) in *.
      rewrite <- Hsame. apply Hnobias. reflexivity.
Defined.

Lemma sgd_step_updates_simultaneously_witness :
  let self := Sample.new false false in
  let s := {| st_u_factors := [[0.5; 0.25]]%float; st_i_factors := [[2; 4]]%float;
              st_u_biases := None; st_i_biases := None;
              st_loss := 0; st_last_loss := 0; st_iter := 1; st_stdout := [] |} in
  let s' := sgd_step self Sample.ts s (0, 0, 4%float) in
  let error := (4 - predict self Sample.ts s 0 0)%float in
  at2 (st_u_factors s') 0 1 = (0.25 + 0.01 * (error * 4 - 0.02 * 0.25))%float
  /\ at2 (st_i_factors s') 0 1 = (4 + 0.01 * (error * 0.25 - 0.02 * 4))%float.
Proof.
  intros self s s' error.
  apply (sgd_step_updates_simultaneously self Sample.ts s 0 0 4%float 1 1 1).
  - apply has_shape_Forall; [reflexivity | repeat constructor].
  - apply has_shape_Forall; [reflexivity | repeat constructor].
  - lia.
  - lia.
  - by_evaluation.
Defined.

Lemma rank_known_user_candidates_witness :
  exists ranked,
    rank Sample.argsort Sample.default_rank (Sample.trained true) 0 (Some [5; 0; 2])
    = Ok ranked
    /\ NoDup ranked
    /\ (forall x, x ∈ ranked <-> x ∈ [5; 0; 2])
    /\ ranked = [5; 0; 2].
Proof.
  destruct (rank_known_user_candidates Sample.argsort Sample.default_rank
              (Sample.new true false) Sample.ts Sample.u_draw Sample.i_draw
              0 [5; 0; 2])
    as (_ & _ & _ & _ & ranked & Hrank & Heq & _ & _ & _ & _ & Hnd & Hin).
  - by_evaluation.
  - by_evaluation.
  - by_evaluation.
  - discriminate.
  - apply (bool_decide_unpack (NoDup [5; 0; 2])). by_evaluation.
  - apply Sample.argsort_Permutation.
  - unfold ascending. sorted_by_evaluation.
  - exists ranked. split; [exact Hrank|]. split; [exact Hnd|]. split; [exact Hin|].
    rewrite Heq. by_evaluation.
Defined.

Lemma fit_stops_after_first_epoch_witness :
  let self1 := Recommender_fit Sample.exact_new Sample.exact_ts in
  let s0 := {| st_u_factors := [[2]]%float; st_i_factors := [[2]]%float;
               st_u_biases := None; st_i_biases := None;
               st_loss := 0; st_last_loss := 0; st_iter := 0; st_stdout := [] |} in
  st_iter (epochs self1 Sample.exact_ts (seq 1 20) s0) = 1
  /\ stdout (fit Sample.exact_new Sample.exact_ts Sample.exact_draw Sample.exact_draw)
     = [EarlyStopping; OptimizationFinished].
Proof.
  intros self1 s0.
  destruct (fit_stops_after_first_epoch Sample.exact_new Sample.exact_ts
              Sample.exact_draw Sample.exact_draw s0)
    as (_ & _ & Hiter & _ & _).
  - by_evaluation.
  - by_evaluation.
  - by_evaluation.
  - by_evaluation.
  - split; [exact Hiter | by_evaluation].
Defined.

(** ** Runs of the code on the sample data *)

(** The reference of section 8 for the simultaneous update: one user, one
    item, one rating, [k = 1].  With [u = 0.5], [i = 2], [r = 4],
    [lr = 0.01] and [reg = 0.02] the error is [3]; the new user factor is
    [0.5 + 0.01 * (3 * 2 - 0.02 * 0.5)] and the new item factor is
    [2 + 0.01 * (3 * 0.5 - 0.02 * 2)], which uses the old user factor
    [0.5], not the new one. *)
Example sgd_step_by_hand :
  let self := {| k := 1; max_iter := 1; learning_rate := 0.01%float;
                 lambda_reg := 0.02%float; use_bias := false;
                 early_stop := false; verbose := false; fitted := false;
                 train_set := None; u_factors := None; i_factors := None;
                 u_biases := None; i_biases := None |} in
  let s := {| st_u_factors := [[0.5]]%float; st_i_factors := [[2]]%float;
              st_u_biases := None; st_i_biases := None;
              st_loss := 0; st_last_loss := 0; st_iter := 1; st_stdout := [] |} in
  let s' := sgd_step self Sample.exact_ts s (0, 0, 4%float) in
  st_u_factors s' = [[0.5 + 0.01 * (3 * 2 - 0.02 * 0.5)]]%float
  /\ st_i_factors s' = [[2 + 0.01 * (3 * 0.5 - 0.02 * 2)]]%float
  /\ st_loss s' = 9%float.
Proof. vm_compute. repeat split. Qed.

(** A padded candidate outranks the catalogue when the factor products are
    below the minimum rating. *)
Example rank_padding :
  rank Sample.argsort Sample.default_rank (Sample.trained true) 1 (Some [5; 0; 2; 1; 4])
  = Ok [5; 4; 0; 2; 1].
Proof. vm_compute. reflexivity. Qed.

Example score_bias_only :
  score (Sample.trained true) 7 0 = Ok 3.5%float
  /\ score (Sample.trained false) 7 0 = Raise (ScoreException 7 0).
Proof. vm_compute. split; reflexivity. Qed.

(** A negative [k] passes the constructor and is refused by NumPy inside
    [fit]; the model stays unfitted. *)
Example negative_k_fails_in_fit :
  exists self,
    __init__ (-1) 20 0.01%float 0.02%float true false false = Ok self
    /\ raised (fit self Sample.ts Sample.u_draw Sample.i_draw)
       = Some (ValueError "negative dimensions are not allowed")
    /\ fitted (model (fit self Sample.ts Sample.u_draw Sample.i_draw)) = false.
Proof. eexists. split; [reflexivity|]. vm_compute. split; reflexivity. Qed.

(** With [max_iter = 0] and a negative [lambda_reg], nothing is refused
    at all: [fit] runs no epoch and marks the model as fitted. *)
Example zero_max_iter_is_fitted :
  exists self,
    __init__ 2 0 0.01%float (-1)%float true false false = Ok self
    /\ raised (fit self Sample.ts Sample.u_draw Sample.i_draw) = None
    /\ stdout (fit self Sample.ts Sample.u_draw Sample.i_draw) = []
    /\ fitted (model (fit self Sample.ts Sample.u_draw Sample.i_draw)) = true.
Proof. eexists. split; [reflexivity|]. vm_compute. repeat split. Qed.

(** * Further properties of the code *)

(** ** Shapes of the stored factors *)

(** X1. When [fit] runs to the end, the factor matrices it stores have one
    row per user (per item) of the dataset and [k] columns. *)
Theorem fit_factor_shapes :
  forall self ts u_draw i_draw,
    raised (fit self ts u_draw i_draw) = None ->
    let m := model (fit self ts u_draw i_draw) in
    exists U I,
      u_factors m = Some U /\ has_shape U (num_users ts) (Z.to_nat (k self))
      /\ i_factors m = Some I /\ has_shape I (num_items ts) (Z.to_nat (k self)).
Proof.
  intros self ts u_draw i_draw Hr m.
  apply fit_raises_iff in Hr.
  destruct (fit_completes self ts u_draw i_draw Hr) as (s0 & Hs0 & Hfit).
  subst m. rewrite Hfit. simpl.
  pose proof (fit_init_has_shape _ _ _ _ _ Hs0) as Hshape.
  apply (epochs_has_shape (Recommender_fit self ts) ts
           (seq 1 (Z.to_nat (max_iter (Recommender_fit self ts))))) in Hshape.
  apply (print_has_shape (Recommender_fit self ts) ts OptimizationFinished) in Hshape.
  destruct Hshape as [HU HI].
  eexists _, _. split; [reflexivity|]. split; [exact HU|].
  split; [reflexivity | exact HI].
Qed.

Lemma fit_factor_shapes_witness :
  exists U I,
    u_factors (Sample.trained true) = Some U /\ has_shape U 2 2
    /\ i_factors (Sample.trained true) = Some I /\ has_shape I 3 2.
Proof.
  apply (fit_factor_shapes (Sample.new true false) Sample.ts
           Sample.u_draw Sample.i_draw).
  by_evaluation.
Defined.

(** ** Rows that no rating mentions *)

Lemma set2_other_row M r c v r' : r <> r' -> set2 M r c v !! r' = M !! r'.
Proof. intros Hne. unfold set2. apply list_lookup_alter_ne. exact Hne. Qed.

Lemma update_factors_other_rows self u i error fs UI :
  let UI' := foldl (update_factor self u i error) UI fs in
  (forall r, r <> u -> UI'.1 !! r = UI.1 !! r)
  /\ (forall r, r <> i -> UI'.2 !! r = UI.2 !! r).
Proof.
  apply (foldl_preserves
           (fun X => (forall r, r <> u -> X.1 !! r = UI.1 !! r)
                     /\ (forall r, r <> i -> X.2 !! r = UI.2 !! r))).
  - split; reflexivity.
  - intros [U I] f [HU HI]. simpl in *. split; intros r Hr.
    + rewrite set2_other_row by congruence. apply HU, Hr.
    + rewrite set2_other_row by congruence. apply HI, Hr.
Qed.

(** The rows of a state that the ratings of [obs] do not mention. *)
Definition rows_kept (u0 i0 : option nat) (s s' : fit_state) : Prop :=
  (forall u, u0 = Some u -> st_u_factors s' !! u = st_u_factors s !! u)
  /\ (forall i, i0 = Some i -> st_i_factors s' !! i = st_i_factors s !! i).

Definition not_rated (u0 i0 : option nat) (obs : nat * nat * float) : Prop :=
  u0 <> Some obs.1.1 /\ i0 <> Some obs.1.2.

Lemma rows_kept_refl u0 i0 s : rows_kept u0 i0 s s.
Proof. split; reflexivity. Qed.

Lemma rows_kept_trans u0 i0 s1 s2 s3 :
  rows_kept u0 i0 s1 s2 -> rows_kept u0 i0 s2 s3 -> rows_kept u0 i0 s1 s3.
Proof.
  intros [HU1 HI1] [HU2 HI2]. split; intros x Hx.
  - rewrite (HU2 x Hx). apply HU1, Hx.
  - rewrite (HI2 x Hx). apply HI1, Hx.
Qed.

Lemma sgd_step_rows_kept self ts u0 i0 s obs :
  not_rated u0 i0 obs -> rows_kept u0 i0 s (sgd_step self ts s obs).
Proof.
  destruct obs as [[u i] r]. intros [Hu Hi]. simpl in Hu, Hi.
  destruct (update_factors_other_rows self u i
              (r - predict self ts s u i)%float
              (seq 0 (Z.to_nat (k self))) (st_u_factors s, st_i_factors s))
    as [HU HI].
  split; intros x Hx; simpl.
  - apply HU. congruence.
  - apply HI. congruence.
Qed.

Lemma sgd_steps_rows_kept self ts u0 i0 obs :
  Forall (not_rated u0 i0) obs ->
  forall s, rows_kept u0 i0 s (foldl (sgd_step self ts) s obs).
Proof.
  induction 1 as [|o obs Ho _ IH]; intros s; simpl.
  - apply rows_kept_refl.
  - eapply rows_kept_trans; [apply sgd_step_rows_kept, Ho | apply IH].
Qed.

Lemma print_rows_kept self u0 i0 e s : rows_kept u0 i0 s (print self e s).
Proof. unfold print. destruct (verbose self); split; reflexivity. Qed.

Lemma epoch_rows_kept self ts u0 i0 iter s :
  Forall (not_rated u0 i0) (matrix_triples ts) ->
  rows_kept u0 i0 s (epoch self ts iter s).
Proof.
  intros Hall. unfold epoch.
  match goal with |- context [foldl _ ?s0 _] =>
    destruct (sgd_steps_rows_kept self ts u0 i0 _ Hall s0) as [HU HI] end.
  split; intros x Hx; simpl; [apply HU, Hx | apply HI, Hx].
Qed.

Lemma epochs_rows_kept self ts u0 i0 iters :
  Forall (not_rated u0 i0) (matrix_triples ts) ->
  forall s, rows_kept u0 i0 s (epochs self ts iters s).
Proof.
  intros Hall. induction iters as [|iter rest IH]; intros s; simpl.
  - apply rows_kept_refl.
  - destruct (stops self (epoch self ts iter s)).
    + eapply rows_kept_trans; [apply epoch_rows_kept, Hall | apply print_rows_kept].
    + eapply rows_kept_trans; [apply epoch_rows_kept, Hall|].
      eapply rows_kept_trans; [apply print_rows_kept | apply IH].
Qed.

Lemma np_random_normal_row draw rows cols M r :
  np_random_normal draw rows cols = Ok M -> r < rows ->
  M !! r = Some (draw r <$> seq 0 (Z.to_nat cols)).
Proof.
  unfold np_random_normal. destruct (cols <? 0)%Z; [discriminate|].
  intros H Hr. injection H as <-.
  rewrite list_lookup_fmap, lookup_seq_lt by exact Hr. reflexivity.
Qed.

(** X2. Training only moves the rows that the ratings mention: after
    [fit], the factor row of a user who has no rating in the training
    matrix is still the row that was drawn for that user at
    initialisation, and likewise for an item without rating, whatever the
    number of epochs. *)
Theorem fit_keeps_rows_without_ratings :
  forall self ts u_draw i_draw,
    raised (fit self ts u_draw i_draw) = None ->
    let m := model (fit self ts u_draw i_draw) in
    exists U I,
      u_factors m = Some U /\ i_factors m = Some I
      /\ (forall u, u < num_users ts ->
            Forall (fun obs => obs.1.1 <> u) (matrix_triples ts) ->
            U !! u = Some (u_draw u <$> seq 0 (Z.to_nat (k self))))
      /\ (forall i, i < num_items ts ->
            Forall (fun obs => obs.1.2 <> i) (matrix_triples ts) ->
            I !! i = Some (i_draw i <$> seq 0 (Z.to_nat (k self)))).
Proof.
  intros self ts u_draw i_draw Hr m.
  apply fit_raises_iff in Hr.
  destruct (fit_completes self ts u_draw i_draw Hr) as (s0 & Hs0 & Hfit).
  subst m. rewrite Hfit. simpl.
  eexists _, _. split; [reflexivity|]. split; [reflexivity|].
  set (self1 := Recommender_fit self ts) in *.
  assert (forall u0 i0, Forall (not_rated u0 i0) (matrix_triples ts) ->
                        rows_kept u0 i0 s0 (fit_loop self1 ts s0)) as Hkept.
  { intros u0 i0 Hall. unfold fit_loop.
    eapply rows_kept_trans; [apply epochs_rows_kept, Hall | apply print_rows_kept]. }
  unfold fit_init in Hs0.
  destruct (np_random_normal u_draw (num_users ts) (k self1)) as [U0|] eqn:EU;
    [|discriminate].
  destruct (np_random_normal i_draw (num_items ts) (k self1)) as [I0|] eqn:EI;
    [|discriminate].
  simpl in Hs0. injection Hs0 as <-.
  split.
  - intros u Hu Hall.
    destruct (Hkept (Some u) None) as [HU _].
    { eapply Forall_impl; [exact Hall|]. intros obs Hobs.
      split; [congruence | discriminate]. }
    rewrite (HU u eq_refl). simpl.
    apply (np_random_normal_row _ _ _ _ _ EU Hu).
  - intros i Hi Hall.
    destruct (Hkept None (Some i)) as [_ HI].
    { eapply Forall_impl; [exact Hall|]. intros obs Hobs.
      split; [discriminate | congruence]. }
    rewrite (HI i eq_refl). simpl.
    apply (np_random_normal_row _ _ _ _ _ EI Hi).
Qed.

(** Three users and three items; user 2 and item 2 have no rating. *)
Module Sparse.

Definition ts : TrainSet :=
  {| num_users := 3; num_items := 3;
     global_mean := 4.5%float; min_rating := 1%float;
     matrix_triples := [(0, 0, 4%float); (1, 1, 5%float)];
     is_unk_user := fun u => (3 <=? u)%nat;
     is_unk_item := fun i => (3 <=? i)%nat |}.

End Sparse.

Lemma fit_keeps_rows_without_ratings_witness :
  exists U I,
    u_factors (model (fit (Sample.new true false) Sparse.ts Sample.u_draw Sample.i_draw))
    = Some U
    /\ i_factors (model (fit (Sample.new true false) Sparse.ts Sample.u_draw Sample.i_draw))
       = Some I
    /\ U !! 2 = Some [0.02; 0.007]%float
    /\ I !! 2 = Some [0.005; 0.005]%float.
Proof.
  destruct (fit_keeps_rows_without_ratings (Sample.new true false) Sparse.ts
              Sample.u_draw Sample.i_draw) as (U & I & HU & HI & Hu & Hi).
  - by_evaluation.
  - exists U, I. split; [exact HU|]. split; [exact HI|]. split.
    + apply (Hu 2); [by_evaluation | repeat constructor; discriminate].
    + apply (Hi 2); [by_evaluation | repeat constructor; discriminate].
Defined.

(** ** The loop without early stopping, and what it prints *)

Lemma epochs_without_early_stop self ts iters :
  early_stop self = false ->
  forall s, epochs self ts iters s = unbroken self ts iters s.
Proof.
  intros Hes. induction iters as [|iter rest IH]; intros s; [reflexivity|].
  cbn [epochs]. unfold stops. rewrite Hes. simpl.
  rewrite IH. reflexivity.
Qed.

Lemma sgd_steps_stdout self ts obs s :
  st_stdout (foldl (sgd_step self ts) s obs) = st_stdout s.
Proof.
  apply (foldl_preserves (fun x => st_stdout x = st_stdout s)); [reflexivity|].
  intros a [[u i] r] Ha. exact Ha.
Qed.

Lemma epoch_stdout self ts iter s :
  st_stdout (epoch self ts iter s) = st_stdout s.
Proof. unfold epoch. simpl. rewrite sgd_steps_stdout. reflexivity. Qed.

Lemma print_stdout self e s :
  st_stdout (print self e s)
  = if verbose self then st_stdout s ++ [e] else st_stdout s.
Proof. unfold print. destruct (verbose self); reflexivity. Qed.

Lemma unbroken_stdout_length self ts iters :
  forall s,
    length (st_stdout (unbroken self ts iters s))
    = length (st_stdout s) + (if verbose self then length iters else 0).
Proof.
  induction iters as [|iter rest IH]; intros s.
  - simpl. destruct (verbose self); lia.
  - unfold unbroken in *. cbn [foldl]. rewrite IH. unfold epoch_logged.
    rewrite print_stdout, epoch_stdout.
    destruct (verbose self); [rewrite length_app|]; simpl; lia.
Qed.

Lemma unbroken_iter self ts iters iter s :
  st_iter (unbroken self ts (iters ++ [iter]) s) = iter.
Proof.
  rewrite unbroken_snoc. unfold epoch_logged.
  match goal with |- st_iter (print _ ?e ?x) = _ =>
    destruct (print_fields self e x) as (_ & _ & ->) end.
  apply epoch_fields.
Qed.

(** X3. With [early_stop] off the loop never breaks: it runs all
    [max_iter] epochs, whatever the losses are, and in verbose mode it
    prints one progress line per epoch. *)
Theorem loop_without_early_stop :
  forall self ts s0,
    early_stop self = false ->
    (1 <= max_iter self)%Z ->
    let N := Z.to_nat (max_iter self) in
    let final := epochs self ts (seq 1 N) s0 in
    final = unbroken self ts (seq 1 N) s0
    /\ st_iter final = N
    /\ length (st_stdout final)
       = length (st_stdout s0) + (if verbose self then N else 0).
Proof.
  intros self ts s0 Hes Hmax N final.
  assert (final = unbroken self ts (seq 1 N) s0) as Hfinal
    by (apply epochs_without_early_stop; exact Hes).
  split; [exact Hfinal|]. rewrite Hfinal. split.
  - replace N with (S (N - 1)) at 1 by lia.
    rewrite seq_S, unbroken_iter. lia.
  - rewrite unbroken_stdout_length, length_seq. reflexivity.
Qed.

Lemma loop_without_early_stop_witness :
  let self1 := Recommender_fit (Sample.new true false) Sample.ts in
  let s0 := {| st_u_factors := [[0.011; -0.004]; [0.02; 0.007]]%float;
               st_i_factors := [[0.013; 0.013]; [-0.009; 0.001]; [0.005; 0.005]]%float;
               st_u_biases := Some [0; 0]%float;
               st_i_biases := Some [0; 0; 0]%float;
               st_loss := 0; st_last_loss := 0; st_iter := 0; st_stdout := [] |} in
  st_iter (epochs self1 Sample.ts (seq 1 20) s0) = 20
  /\ length (st_stdout (epochs self1 Sample.ts (seq 1 20) s0)) = 20.
Proof.
  intros self1 s0.
  destruct (loop_without_early_stop self1 Sample.ts s0) as (_ & Hiter & Hout).
  - reflexivity.
  - by_evaluation.
  - split; [exact Hiter | exact Hout].
Defined.

(** ** The reported losses *)

Lemma nonneg_or_nan_not_negative x :
  nonneg_or_nan x -> (x <? 0)%float = false.
Proof.
  unfold nonneg_or_nan. intros Hx. rewrite ltb_spec.
  change (Prim2SF 0%float) with (S754_zero false).
  destruct (Prim2SF x) as [s|s| |s m e]; try reflexivity;
    apply Bool.negb_true_iff in Hx; subst s; reflexivity.
Qed.

(** A progress line carries a loss that is not negative. *)
Definition event_loss_ok (e : event) : Prop :=
  match e with
  | IterLoss _ loss => (loss <? 0)%float = false
  | _ => True
  end.

Lemma print_stdout_ok self e s :
  event_loss_ok e -> Forall event_loss_ok (st_stdout s) ->
  Forall event_loss_ok (st_stdout (print self e s)).
Proof.
  intros He Hs. rewrite print_stdout. destruct (verbose self); [|exact Hs].
  apply Forall_app. split; [exact Hs | repeat constructor; exact He].
Qed.

Lemma epochs_stdout_ok self ts iters :
  forall s, Forall event_loss_ok (st_stdout s) ->
            Forall event_loss_ok (st_stdout (epochs self ts iters s)).
Proof.
  induction iters as [|iter rest IH]; intros s Hs; [exact Hs|].
  cbn [epochs]. destruct (stops self (epoch self ts iter s)).
  - apply print_stdout_ok; [exact I | rewrite epoch_stdout; exact Hs].
  - apply IH. apply print_stdout_ok; [|rewrite epoch_stdout; exact Hs].
    apply nonneg_or_nan_not_negative, epoch_loss_nonneg.
Qed.

(** X4. No loss that [fit] prints is negative: every progress line shows
    a binary64 value that is zero, positive, [+oo] or NaN, whatever the
    ratings, the draws and the hyper-parameters. *)
Theorem fit_reports_no_negative_loss :
  forall self ts u_draw i_draw,
    Forall event_loss_ok (stdout (fit self ts u_draw i_draw)).
Proof.
  intros self ts u_draw i_draw. unfold fit.
  destruct (fit_init (Recommender_fit self ts) ts u_draw i_draw) as [s0|e] eqn:E;
    simpl; [|constructor].
  unfold fit_loop. apply print_stdout_ok; [exact I|].
  apply epochs_stdout_ok.
  unfold fit_init in E.
  destruct (np_random_normal u_draw (num_users ts) _); [|discriminate].
  destruct (np_random_normal i_draw (num_items ts) _); [|discriminate].
  simpl in E. injection E as <-. constructor.
Qed.

(** ** What [fit] reads of the model *)

(** The hyper-parameters, which are all that [fit] reads of [self]. *)
Definition hyper (self : MF) : Z * Z * float * float * bool * bool :=
  (k self, max_iter self, learning_rate self, lambda_reg self,
   use_bias self, early_stop self).

Lemma epochs_hyper a b ts iters s :
  hyper a = hyper b -> verbose a = verbose b ->
  epochs a ts iters s = epochs b ts iters s.
Proof.
  destruct a, b. unfold hyper. simpl. intros H Hv.
  injection H as -> -> -> -> -> ->. subst. reflexivity.
Qed.

Lemma fit_init_hyper a b ts u_draw i_draw :
  hyper a = hyper b ->
  fit_init a ts u_draw i_draw = fit_init b ts u_draw i_draw.
Proof.
  destruct a, b. unfold hyper. simpl. intros H.
  injection H as -> -> -> -> -> ->. reflexivity.
Qed.

(** X5. [fit] starts afresh: fitting a model that was fitted before (on
    any dataset, with any draws) gives the same model, the same output and
    the same outcome as fitting the original model. *)
Theorem fit_discards_previous_fit :
  forall self ts1 u_draw1 i_draw1 ts2 u_draw2 i_draw2,
    fit (model (fit self ts1 u_draw1 i_draw1)) ts2 u_draw2 i_draw2
    = fit self ts2 u_draw2 i_draw2.
Proof.
  intros self ts1 u_draw1 i_draw1 ts2 u_draw2 i_draw2.
  destruct (Z.ltb_spec (k self) 0) as [Hneg|Hpos].
  - destruct self. simpl in Hneg. unfold fit, fit_init, np_random_normal. simpl.
    apply Z.ltb_lt in Hneg. rewrite Hneg. simpl. rewrite Hneg. reflexivity.
  - destruct (fit_completes self ts1 u_draw1 i_draw1 Hpos) as (s1 & _ & ->).
    cbv zeta. cbn [model].
    set (m1 := store (Recommender_fit self ts1) _).
    assert (hyper (Recommender_fit m1 ts2) = hyper (Recommender_fit self ts2)) as Hh
      by reflexivity.
    assert (verbose (Recommender_fit m1 ts2) = verbose (Recommender_fit self ts2)) as Hv
      by reflexivity.
    unfold fit. rewrite (fit_init_hyper _ _ ts2 u_draw2 i_draw2 Hh).
    destruct (fit_init_ok (Recommender_fit self ts2) ts2 u_draw2 i_draw2 Hpos)
      as (s0 & -> & _).
    unfold fit_loop.
    change (max_iter (Recommender_fit m1 ts2)) with (max_iter (Recommender_fit self ts2)).
    rewrite (epochs_hyper _ _ ts2 _ s0 Hh Hv).
    unfold print. rewrite Hv.
    unfold store. simpl. destruct (use_bias self); reflexivity.
Qed.

(** ** Verbosity *)

Definition with_verbose (v : bool) (self : MF) : MF :=
  {| k := k self; max_iter := max_iter self;
     learning_rate := learning_rate self; lambda_reg := lambda_reg self;
     use_bias := use_bias self; early_stop := early_stop self;
     verbose := v; fitted := fitted self;
     train_set := train_set self; u_factors := u_factors self;
     i_factors := i_factors self; u_biases := u_biases self;
     i_biases := i_biases self |}.

(** A state with its output dropped. *)
Definition silent (s : fit_state) : fit_state :=
  {| st_u_factors := st_u_factors s; st_i_factors := st_i_factors s;
     st_u_biases := st_u_biases s; st_i_biases := st_i_biases s;
     st_loss := st_loss s; st_last_loss := st_last_loss s;
     st_iter := st_iter s; st_stdout := [] |}.

Lemma sgd_step_silent a b ts s obs :
  hyper a = hyper b ->
  silent (sgd_step a ts s obs) = sgd_step b ts (silent s) obs.
Proof.
  destruct a, b, s, obs as [[u i] r]. unfold hyper. simpl. intros H.
  injection H as -> -> -> -> -> ->. reflexivity.
Qed.

Lemma sgd_steps_silent a b ts obs :
  hyper a = hyper b ->
  forall s, silent (foldl (sgd_step a ts) s obs)
            = foldl (sgd_step b ts) (silent s) obs.
Proof.
  intros H. induction obs as [|o obs IH]; intros s; [reflexivity|].
  cbn [foldl]. rewrite IH, (sgd_step_silent a b ts s o H). reflexivity.
Qed.

Lemma epoch_silent a b ts iter s :
  hyper a = hyper b ->
  silent (epoch a ts iter s) = epoch b ts iter (silent s).
Proof.
  intros H. unfold epoch.
  match goal with |- context [foldl (sgd_step a ts) ?s0 _] =>
    pose proof (sgd_steps_silent a b ts (matrix_triples ts) H s0) as E end.
  unfold silent at 2 in E. cbn [st_u_factors st_i_factors st_u_biases st_i_biases
    st_loss st_last_loss st_iter] in E.
  cbn [silent st_u_factors st_i_factors st_u_biases st_i_biases
    st_loss st_last_loss st_iter st_stdout].
  rewrite <- E. reflexivity.
Qed.

Lemma stops_silent a b s :
  hyper a = hyper b -> stops a s = stops b (silent s).
Proof.
  destruct a, b, s. unfold hyper. simpl. intros H.
  injection H as -> -> -> -> -> ->. reflexivity.
Qed.

Lemma print_silent a e s : silent (print a e s) = silent s.
Proof. unfold print. destruct (verbose a); reflexivity. Qed.

Lemma print_quiet b e s : verbose b = false -> print b e s = s.
Proof. unfold print. intros ->. reflexivity. Qed.

Lemma epochs_silent a b ts iters :
  hyper a = hyper b -> verbose b = false ->
  forall s, silent (epochs a ts iters s) = epochs b ts iters (silent s).
Proof.
  intros H Hq. induction iters as [|iter rest IH]; intros s; [reflexivity|].
  cbn [epochs].
  rewrite <- (epoch_silent a b ts iter s H).
  rewrite <- (stops_silent a b (epoch a ts iter s) H).
  destruct (stops a (epoch a ts iter s)).
  - rewrite print_silent, (print_quiet b) by exact Hq. reflexivity.
  - rewrite IH, print_silent, (print_quiet b) by exact Hq. reflexivity.
Qed.

(** X6. The [verbose] flag only decides what is printed.  With it off,
    [fit] prints nothing; and the outcome, the factors and the biases that
    [fit] stores are the same with the flag on or off. *)
Theorem fit_verbose_only_prints :
  forall self ts u_draw i_draw,
    let quiet := fit (with_verbose false self) ts u_draw i_draw in
    let any := fit self ts u_draw i_draw in
    stdout quiet = []
    /\ raised quiet = raised any
    /\ fitted (model quiet) = fitted (model any)
    /\ u_factors (model quiet) = u_factors (model any)
    /\ i_factors (model quiet) = i_factors (model any)
    /\ u_biases (model quiet) = u_biases (model any)
    /\ i_biases (model quiet) = i_biases (model any).
Proof.
  intros self ts u_draw i_draw quiet any. subst quiet any. unfold fit.
  set (a := Recommender_fit self ts).
  set (b := Recommender_fit (with_verbose false self) ts).
  assert (hyper a = hyper b) as H by reflexivity.
  assert (verbose b = false) as Hq by reflexivity.
  rewrite <- (fit_init_hyper a b ts u_draw i_draw H).
  destruct (fit_init a ts u_draw i_draw) as [s0|e] eqn:E.
  - assert (st_stdout s0 = []) as Hout.
    { unfold fit_init in E.
      destruct (np_random_normal u_draw (num_users ts) _); [|discriminate].
      destruct (np_random_normal i_draw (num_items ts) _); [|discriminate].
      simpl in E. injection E as <-. reflexivity. }
    assert (silent s0 = s0) as Hs0 by (destruct s0; simpl in Hout; subst; reflexivity).
    assert (fit_loop b ts s0 = silent (fit_loop a ts s0)) as Hloop.
    { unfold fit_loop. rewrite (print_quiet b) by exact Hq.
      change (max_iter b) with (max_iter a).
      rewrite print_silent, (epochs_silent a b ts _ H Hq), Hs0. reflexivity. }
    cbn [model stdout raised]. rewrite Hloop.
    repeat split; simpl; destruct (use_bias self); reflexivity.
  - cbn [model stdout raised]. repeat split.
Qed.

(** ** Adding zero in binary64 *)

(** Adding [+0.] changes nothing, except that it turns [-0.] into [+0.]. *)
Lemma float_add_0_r x : x <> neg_zero -> (x + 0)%float = x.
Proof.
  intros Hx. apply Prim2SF_inj. rewrite add_spec.
  change (Prim2SF 0%float) with (S754_zero false).
  destruct (Prim2SF x) as [s|s| |s m e] eqn:E; try reflexivity.
  destruct s; [|reflexivity].
  exfalso. apply Hx. rewrite <- (SF2Prim_Prim2SF x), E. reflexivity.
Qed.

(** ** [fit] followed by [score] *)

(** X7. Since [fit] leaves the biases at zero, the score of a model
    trained in bias mode is the global mean when the user or the item is
    unknown, and the global mean plus the dot product of the two factor
    rows when both are known.  (The global mean is not [-0.]; a known
    index lies within the dataset's counts.) *)
Theorem score_after_fit_with_bias :
  forall self ts u_draw i_draw user item,
    raised (fit self ts u_draw i_draw) = None ->
    use_bias self = true ->
    global_mean ts <> neg_zero ->
    (is_unk_user ts user = false -> user < num_users ts) ->
    (is_unk_item ts item = false -> item < num_items ts) ->
    let m := model (fit self ts u_draw i_draw) in
    exists U I,
      u_factors m = Some U /\ i_factors m = Some I
      /\ score m user item
         = Ok (if is_unk_user ts user || is_unk_item ts item
               then global_mean ts
               else (global_mean ts
                     + dot (default [] (U !! user)) (default [] (I !! item)))%float).
Proof.
  intros self ts u_draw i_draw user item Hr Hb Hgm Hu Hi m.
  destruct (fit_attributes self ts u_draw i_draw Hr)
    as (Hf & Hts & Hub & (U & HU & HUl) & (I & HI & HIl) & Hbias).
  destruct (Hbias Hb) as [Hbu Hbi]. fold m in Hf, Hts, Hub, HU, HI, Hbu, Hbi.
  exists U, I. split; [exact HU|]. split; [exact HI|].
  unfold score. rewrite Hf, Hts, Hub, Hb, Hbu, Hbi, HU, HI. simpl.
  unfold getitem, np_zeros.
  destruct (is_unk_user ts user) eqn:Eu; destruct (is_unk_item ts item) eqn:Ei;
    simpl; try reflexivity.
  - rewrite lookup_replicate_2 by auto. simpl.
    rewrite (float_add_0_r (global_mean ts) Hgm). reflexivity.
  - rewrite lookup_replicate_2 by auto. simpl.
    rewrite (float_add_0_r (global_mean ts) Hgm). reflexivity.
  - rewrite !lookup_replicate_2 by auto. simpl.
    rewrite !(float_add_0_r (global_mean ts) Hgm).
    destruct (lookup_lt_is_Some_2 U user) as [p Hp]; [rewrite HUl; auto|].
    destruct (lookup_lt_is_Some_2 I item) as [q Hq]; [rewrite HIl; auto|].
    rewrite Hp, Hq. reflexivity.
Qed.

Lemma score_after_fit_with_bias_witness :
  score (Sample.trained true) 0 7 = Ok 3.5%float
  /\ exists U I,
       u_factors (Sample.trained true) = Some U
       /\ i_factors (Sample.trained true) = Some I
       /\ score (Sample.trained true) 1 2
          = Ok (3.5 + dot (default [] (U !! 1%nat)) (default [] (I !! 2%nat)))%float.
Proof.
  split.
  - destruct (score_after_fit_with_bias (Sample.new true false) Sample.ts
                Sample.u_draw Sample.i_draw 0 7) as (U & I & _ & _ & Hs).
    + by_evaluation.
    + by_evaluation.
    + intros H. vm_compute in H. discriminate H.
    + intros _. by_evaluation.
    + intros H. vm_compute in H. discriminate H.
    + exact Hs.
  - destruct (score_after_fit_with_bias (Sample.new true false) Sample.ts
                Sample.u_draw Sample.i_draw 1 2) as (U & I & HU & HI & Hs).
    + by_evaluation.
    + by_evaluation.
    + intros H. vm_compute in H. discriminate H.
    + intros _. by_evaluation.
    + intros _. by_evaluation.
    + exists U, I. split; [exact HU|]. split; [exact HI | exact Hs].
Defined.

(** ** [rank] on a trained model *)

(** The users for whom [rank] computes scores itself: the known ones, and
    in bias mode the unknown ones too. *)
Definition ranked_by_scores (self : MF) (ts : TrainSet) (user : nat) : Prop :=
  (is_unk_user ts user = false /\ user < num_users ts)
  \/ (is_unk_user ts user = true /\ use_bias self = true).

(** The score vector of lines 197-203. *)
Definition item_scores (m : MF) (ts : TrainSet) (user : nat) : vector :=
  if is_unk_user ts user then default [] (i_biases m)
  else known_user_scores m user.

Lemma rank_by_item_scores argsort default_rank self ts u_draw i_draw user :
  raised (fit self ts u_draw i_draw) = None ->
  ranked_by_scores self ts user ->
  let m := model (fit self ts u_draw i_draw) in
  length (item_scores m ts user) = num_items ts
  /\ forall cands,
      rank argsort default_rank m user cands
      = rank_scores argsort ts (item_scores m ts user) cands.
Proof.
  intros Hr Hcase m.
  destruct (fit_attributes self ts u_draw i_draw Hr)
    as (Hf & Hts & Hub & (U & HU & HUl) & (I & HI & HIl) & Hbias).
  fold m in Hf, Hts, Hub, HU, HI, Hbias.
  unfold item_scores, rank. rewrite Hf, Hts. simpl.
  destruct Hcase as [[Hk Hlt] | [Hk Hb]]; rewrite Hk.
  - destruct (getitem_lt U user) as (p & Hp & Gp); [lia|].
    unfold known_user_scores. rewrite HI, HU. simpl. rewrite Hp, Gp. simpl.
    split; [|reflexivity]. unfold matvec. rewrite length_fmap. exact HIl.
  - destruct (Hbias Hb) as [_ Hib]. rewrite Hub, Hb, Hib. simpl.
    split; [|reflexivity]. apply length_replicate.
Qed.

Lemma rank_scores_within_catalogue argsort ts v cands :
  length v = num_items ts -> cands <> [] -> max_list cands < num_items ts ->
  rank_scores argsort ts v (Some cands)
  = Ok (filter (fun a => a ∈ cands) (reverse (argsort v))).
Proof.
  intros Hlen Hne Hmax. unfold rank_scores.
  rewrite (py_max_nonempty cands Hne). simpl.
  replace (num_items ts `max` (max_list cands + 1)) with (num_items ts) by lia.
  rewrite fmap_replicate, assign_prefix_replicate by (exact Hlen || lia).
  rewrite Nat.sub_diag. simpl. rewrite app_nil_r. reflexivity.
Qed.

(** X8. Without candidates, [rank] returns every item of the catalogue
    exactly once, by descending score.  ([argsort] returns the indices of
    the score vector in ascending order, as NumPy's does.) *)
Theorem rank_full_catalogue :
  forall argsort default_rank self ts u_draw i_draw user,
    raised (fit self ts u_draw i_draw) = None ->
    ranked_by_scores self ts user ->
    let m := model (fit self ts u_draw i_draw) in
    let scores := item_scores m ts user in
    argsort scores ≡ₚ seq 0 (length scores) ->
    ascending scores (argsort scores) ->
    exists ranked,
      rank argsort default_rank m user None = Ok ranked
      /\ ranked ≡ₚ seq 0 (num_items ts)
      /\ NoDup ranked
      /\ descending scores ranked.
Proof.
  intros argsort default_rank self ts u_draw i_draw user Hr Hcase m scores Hperm Hasc.
  destruct (rank_by_item_scores argsort default_rank self ts u_draw i_draw user Hr Hcase)
    as [Hlen Hrank].
  fold m in Hlen, Hrank. fold scores in Hlen, Hrank.
  exists (reverse (argsort scores)).
  assert (reverse (argsort scores) ≡ₚ seq 0 (num_items ts)) as Hp
    by (rewrite reverse_Permutation, Hperm, Hlen; reflexivity).
  split; [rewrite Hrank; reflexivity|]. split; [exact Hp|]. split.
  - rewrite Hp. apply NoDup_seq.
  - apply StronglySorted_reverse in Hasc. exact Hasc.
Qed.

Lemma rank_full_catalogue_witness :
  exists ranked,
    rank Sample.argsort Sample.default_rank (Sample.trained true) 0 None = Ok ranked
    /\ ranked ≡ₚ [0; 1; 2]
    /\ NoDup ranked.
Proof.
  destruct (rank_full_catalogue Sample.argsort Sample.default_rank
              (Sample.new true false) Sample.ts Sample.u_draw Sample.i_draw 0)
    as (ranked & Hrank & Hperm & Hnd & _).
  - by_evaluation.
  - left. split; by_evaluation.
  - apply Sample.argsort_Permutation.
  - unfold ascending. sorted_by_evaluation.
  - exists ranked. split; [exact Hrank|]. split; [exact Hperm | exact Hnd].
Defined.

(** X9. When every candidate lies within the catalogue, ranking the
    candidates is the same as ranking the whole catalogue and keeping the
    candidates: nothing is padded and the relative order is that of the
    full ranking.  (The candidates are distinct; [intersects] is the
    order-preserving filter of the spec.) *)
Theorem rank_candidates_filter_full_ranking :
  forall argsort default_rank self ts u_draw i_draw user cands,
    raised (fit self ts u_draw i_draw) = None ->
    ranked_by_scores self ts user ->
    cands <> [] ->
    NoDup cands ->
    max_list cands < num_items ts ->
    let m := model (fit self ts u_draw i_draw) in
    exists full,
      rank argsort default_rank m user None = Ok full
      /\ rank argsort default_rank m user (Some cands)
         = Ok (filter (fun a => a ∈ cands) full).
Proof.
  intros argsort default_rank self ts u_draw i_draw user cands Hr Hcase Hne _ Hmax m.
  destruct (rank_by_item_scores argsort default_rank self ts u_draw i_draw user Hr Hcase)
    as [Hlen Hrank].
  fold m in Hlen, Hrank.
  exists (reverse (argsort (item_scores m ts user))).
  split; [rewrite Hrank; reflexivity|].
  rewrite Hrank. apply rank_scores_within_catalogue; assumption.
Qed.

Lemma rank_candidates_filter_full_ranking_witness :
  exists full,
    rank Sample.argsort Sample.default_rank (Sample.trained true) 1 None = Ok full
    /\ rank Sample.argsort Sample.default_rank (Sample.trained true) 1 (Some [2; 0])
       = Ok (filter (fun a => a ∈ [2; 0]) full).
Proof.
  apply (rank_candidates_filter_full_ranking Sample.argsort Sample.default_rank
           (Sample.new true false) Sample.ts Sample.u_draw Sample.i_draw 1 [2; 0]).
  - by_evaluation.
  - left. split; by_evaluation.
  - discriminate.
  - apply (bool_decide_unpack (NoDup [2; 0])). by_evaluation.
  - by_evaluation.
Defined.

(** X10. An empty candidate list is an error: [rank] raises the
    [ValueError] of Python's [max] on an empty sequence instead of
    returning an empty ranking (for every user whose scores [rank]
    computes itself). *)
Theorem rank_empty_candidates_raises :
  forall argsort default_rank self ts u_draw i_draw user,
    raised (fit self ts u_draw i_draw) = None ->
    ranked_by_scores self ts user ->
    rank argsort default_rank (model (fit self ts u_draw i_draw)) user (Some [])
    = Raise (ValueError "max() arg is an empty sequence").
Proof.
  intros argsort default_rank self ts u_draw i_draw user Hr Hcase.
  destruct (rank_by_item_scores argsort default_rank self ts u_draw i_draw user Hr Hcase)
    as [_ Hrank].
  rewrite Hrank. reflexivity.
Qed.

Lemma rank_empty_candidates_raises_witness :
  rank Sample.argsort Sample.default_rank (Sample.trained true) 0 (Some [])
  = Raise (ValueError "max() arg is an empty sequence")
  /\ rank Sample.argsort Sample.default_rank (Sample.trained true) 9 (Some [])
     = Raise (ValueError "max() arg is an empty sequence").
Proof.
  split.
  - apply (rank_empty_candidates_raises Sample.argsort Sample.default_rank
             (Sample.new true false) Sample.ts Sample.u_draw Sample.i_draw 0).
    + by_evaluation.
    + left. split; by_evaluation.
  - apply (rank_empty_candidates_raises Sample.argsort Sample.default_rank
             (Sample.new true false) Sample.ts Sample.u_draw Sample.i_draw 9).
    + by_evaluation.
    + right. split; by_evaluation.
Defined.

(** ** Edge cases of the loop *)

Lemma delta_nan_not_below a b t :
  a = nan \/ b = nan -> (abs (a - b) <? t)%float = false.
Proof.
  intros H. rewrite ltb_spec, abs_spec, sub_spec.
  destruct H as [-> | ->].
  - change (Prim2SF nan) with S754_nan. reflexivity.
  - change (Prim2SF nan) with S754_nan.
    destruct (Prim2SF a) as [s|s| |s m e]; reflexivity.
Qed.

(** X11. A NaN loss never stops the loop: the test of line 120 fails for
    an epoch whose loss is NaN, and for the epoch that follows one whose
    loss is NaN, so a diverged run continues until [max_iter]. *)
Theorem nan_loss_never_stops :
  forall self ts iter s,
    st_loss s = nan \/ st_loss (epoch self ts iter s) = nan ->
    stops self (epoch self ts iter s) = false.
Proof.
  intros self ts iter s H. unfold stops, delta_loss.
  destruct (epoch_fields self ts iter s) as [-> _].
  rewrite delta_nan_not_below; [apply andb_false_r|].
  destruct H as [H|H]; [right | left]; exact H.
Qed.

Lemma nan_loss_never_stops_witness :
  let ts := {| num_users := 1; num_items := 1; global_mean := nan;
               min_rating := nan; matrix_triples := [(0, 0, nan)];
               is_unk_user := fun u => (1 <=? u)%nat;
               is_unk_item := fun i => (1 <=? i)%nat |} in
  let s0 := {| st_u_factors := [[2]]%float; st_i_factors := [[2]]%float;
               st_u_biases := None; st_i_biases := None;
               st_loss := 0; st_last_loss := 0; st_iter := 0; st_stdout := [] |} in
  st_loss (epoch Sample.exact_new ts 1 s0) = nan
  /\ stops Sample.exact_new (epoch Sample.exact_new ts 1 s0) = false.
Proof.
  intros ts s0.
  assert (st_loss (epoch Sample.exact_new ts 1 s0) = nan) as Hnan by by_evaluation.
  split; [exact Hnan|].
  apply (nan_loss_never_stops Sample.exact_new ts 1 s0).
  right. exact Hnan.
Defined.

(** X12. With [max_iter] at most 0 no epoch runs, and yet [fit] ends
    normally and marks the model as fitted: the factors it stores are the
    random draws, untouched. *)
Theorem fit_without_epochs :
  forall self ts u_draw i_draw,
    (0 <= k self)%Z ->
    (max_iter self <= 0)%Z ->
    let out := fit self ts u_draw i_draw in
    raised out = None
    /\ fitted (model out) = true
    /\ u_factors (model out)
       = Some ((fun r => u_draw r <$> seq 0 (Z.to_nat (k self))) <$> seq 0 (num_users ts))
    /\ i_factors (model out)
       = Some ((fun r => i_draw r <$> seq 0 (Z.to_nat (k self))) <$> seq 0 (num_items ts))
    /\ stdout out = (if verbose self then [OptimizationFinished] else []).
Proof.
  intros self ts u_draw i_draw Hk Hmax out. subst out.
  unfold fit, fit_init, np_random_normal. simpl.
  destruct (Z.ltb_spec (k self) 0) as [Hneg|_]; [lia|]. simpl.
  unfold fit_loop. simpl.
  replace (Z.to_nat (max_iter self)) with 0 by lia. simpl.
  unfold print. simpl. destruct (verbose self); repeat split.
Qed.

Lemma fit_without_epochs_witness :
  let self := {| k := 2; max_iter := 0; learning_rate := 0.01%float;
                 lambda_reg := 0.02%float; use_bias := true;
                 early_stop := false; verbose := false; fitted := false;
                 train_set := None; u_factors := None; i_factors := None;
                 u_biases := None; i_biases := None |} in
  fitted (model (fit self Sample.ts Sample.u_draw Sample.i_draw)) = true
  /\ u_factors (model (fit self Sample.ts Sample.u_draw Sample.i_draw))
     = Some [[0.011; -0.004]; [0.02; 0.007]]%float.
Proof.
  intros self.
  destruct (fit_without_epochs self Sample.ts Sample.u_draw Sample.i_draw)
    as (_ & Hf & HU & _).
  - by_evaluation.
  - by_evaluation.
  - split; [exact Hf | exact HU].
Defined.

(** ** Unknown users in bias mode *)

(** X13. In bias mode every unknown user gets the same ranking, and it
    owes nothing to the ratings: it is the ranking of an all-zero score
    vector, since the item biases stay at zero. *)
Theorem rank_unknown_users_alike :
  forall argsort default_rank self ts u_draw i_draw user cands,
    raised (fit self ts u_draw i_draw) = None ->
    use_bias self = true ->
    is_unk_user ts user = true ->
    let m := model (fit self ts u_draw i_draw) in
    rank argsort default_rank m user cands
    = rank_scores argsort ts (replicate (num_items ts) 0%float) cands
    /\ forall user',
        is_unk_user ts user' = true ->
        rank argsort default_rank m user' cands
        = rank argsort default_rank m user cands.
Proof.
  intros argsort default_rank self ts u_draw i_draw user cands Hr Hb Hk m.
  assert (forall u, is_unk_user ts u = true ->
                    rank argsort default_rank m u cands
                    = rank_scores argsort ts (replicate (num_items ts) 0%float) cands) as H.
  { intros u Hu.
    destruct (rank_by_item_scores argsort default_rank self ts u_draw i_draw u Hr)
      as [_ Hrank]; [right; split; assumption|].
    fold m in Hrank. rewrite Hrank. unfold item_scores. rewrite Hu.
    destruct (fit_attributes self ts u_draw i_draw Hr) as (_ & _ & _ & _ & _ & Hz).
    destruct (Hz Hb) as [_ Hib]. fold m in Hib. rewrite Hib. reflexivity. }
  split; [apply H, Hk|].
  intros user' Hk'. rewrite (H user' Hk'), (H user Hk). reflexivity.
Qed.

Lemma rank_unknown_users_alike_witness :
  rank Sample.argsort Sample.default_rank (Sample.trained true) 9 None
  = rank_scores Sample.argsort Sample.ts [0; 0; 0]%float None
  /\ rank Sample.argsort Sample.default_rank (Sample.trained true) 4 None
     = rank Sample.argsort Sample.default_rank (Sample.trained true) 9 None.
Proof.
  destruct (rank_unknown_users_alike Sample.argsort Sample.default_rank
              (Sample.new true false) Sample.ts Sample.u_draw Sample.i_draw 9 None)
    as [Hzero Hsame].
  - by_evaluation.
  - by_evaluation.
  - by_evaluation.
  - split; [exact Hzero | apply Hsame; by_evaluation].
Defined.

(** ** Padded candidates *)

Lemma rank_scores_padded argsort ts v cands :
  length v = num_items ts -> cands <> [] ->
  rank_scores argsort ts v (Some cands)
  = Ok (filter (fun a => a ∈ cands) (reverse (argsort (padded_scores ts v cands)))).
Proof.
  intros Hlen Hne. unfold rank_scores.
  rewrite (py_max_nonempty cands Hne). simpl.
  rewrite fmap_replicate, float_mul_1_l.
  rewrite assign_prefix_replicate; [|exact Hlen|apply Nat.le_max_l].
  simpl. unfold intersects, padded_scores. do 6 f_equal. lia.
Qed.

(** [x] occurs in [l] somewhere before [y]. *)
Definition precedes {A} (x y : A) (l : list A) : Prop :=
  exists l1 l2 l3, l = l1 ++ x :: l2 ++ y :: l3.

Lemma StronglySorted_precedes {A} (R : A -> A -> Prop) l x y :
  StronglySorted R l -> x ∈ l -> y ∈ l -> x <> y -> ~ R y x -> precedes x y l.
Proof.
  intros Hs Hx Hy Hne Hnot.
  apply list_elem_of_split in Hx as (l1 & l2 & ->).
  apply elem_of_app in Hy as [Hy|Hy].
  - exfalso. apply Hnot.
    eapply (StronglySorted_app_1_elem_of R l1 (x :: l2)); [exact Hs|exact Hy|left].
  - apply elem_of_cons in Hy as [->|Hy]; [contradiction|].
    apply list_elem_of_split in Hy as (l3 & l4 & ->).
    exists l1, l3, l4. reflexivity.
Qed.

(** X14. Where padded candidates end up.  A candidate outside the
    catalogue gets the minimum rating as its score, so it is ranked
    before every candidate of the catalogue whose score is below the
    minimum rating: padding does not send it to the end of the ranking. *)
Theorem rank_padded_candidate_precedes_lower_scores :
  forall argsort default_rank self ts u_draw i_draw user cands,
    raised (fit self ts u_draw i_draw) = None ->
    ranked_by_scores self ts user ->
    NoDup cands ->
    let m := model (fit self ts u_draw i_draw) in
    let scores := item_scores m ts user in
    let pref := padded_scores ts scores cands in
    argsort pref ≡ₚ seq 0 (length pref) ->
    ascending pref (argsort pref) ->
    forall p c x,
      p ∈ cands -> num_items ts <= p ->
      c ∈ cands -> scores !! c = Some x -> (x <? min_rating ts)%float = true ->
      exists ranked,
        rank argsort default_rank m user (Some cands) = Ok ranked
        /\ precedes p c ranked.
Proof.
  intros argsort default_rank self ts u_draw i_draw user cands Hr Hcase Hnd
         m scores pref Hperm Hasc p c x Hp Hpad Hc Hx Hlow.
  destruct (rank_by_item_scores argsort default_rank self ts u_draw i_draw user Hr Hcase)
    as [Hlen Hrank].
  fold m in Hlen, Hrank. fold scores in Hlen, Hrank.
  assert (cands <> []) as Hne by (intros ->; inversion Hp).
  exists (filter (fun a => a ∈ cands) (reverse (argsort pref))).
  split; [rewrite Hrank; apply rank_scores_padded; assumption|].
  assert (c < num_items ts) as Hclt
    by (rewrite <- Hlen; eapply lookup_lt_Some; exact Hx).
  assert (length pref = num_items ts `max` S (max_list cands)) as Hplen.
  { unfold pref, padded_scores. rewrite length_app, length_replicate. lia. }
  assert (forall a, a ∈ cands ->
            a ∈ filter (fun a => a ∈ cands) (reverse (argsort pref))) as Hin.
  { intros a Ha. apply list_elem_of_filter. split; [exact Ha|].
    rewrite elem_of_reverse, Hperm. apply elem_of_seq.
    pose proof (max_list_elem_of_le a cands Ha). lia. }
  apply (StronglySorted_precedes
           (fun a b => (default 0 (pref !! a) <? default 0 (pref !! b))%float = false)).
  - eapply StronglySorted_sublist; [apply sublist_filter|].
    apply StronglySorted_reverse in Hasc. exact Hasc.
  - apply Hin, Hp.
  - apply Hin, Hc.
  - lia.
  - assert (pref !! c = Some x) as ->.
    { unfold pref, padded_scores. rewrite lookup_app_l by lia. exact Hx. }
    assert (pref !! p = Some (min_rating ts)) as ->.
    { unfold pref, padded_scores. rewrite lookup_app_r by lia.
      apply lookup_replicate_2.
      pose proof (max_list_elem_of_le p cands Hp). lia. }
    simpl. rewrite Hlow. discriminate.
Qed.

Lemma rank_padded_candidate_precedes_lower_scores_witness :
  exists ranked,
    rank Sample.argsort Sample.default_rank (Sample.trained true) 0 (Some [5; 0; 2])
    = Ok ranked
    /\ precedes 5 0 ranked.
Proof.
  set (scores := item_scores (Sample.trained true) Sample.ts 0).
  assert (exists x, scores !! 0 = Some x /\ (x <? 1)%float = true) as (x & Hx & Hlow).
  { eexists. split; by_evaluation. }
  apply (rank_padded_candidate_precedes_lower_scores
           Sample.argsort Sample.default_rank
           (Sample.new true false) Sample.ts Sample.u_draw Sample.i_draw
           0 [5; 0; 2]) with (x := x).
  - by_evaluation.
  - left. split; by_evaluation.
  - apply (bool_decide_unpack (NoDup [5; 0; 2])). by_evaluation.
  - apply Sample.argsort_Permutation.
  - unfold ascending. sorted_by_evaluation.
  - apply (bool_decide_unpack (5 ∈ [5; 0; 2])). by_evaluation.
  - by_evaluation.
  - apply (bool_decide_unpack (0 ∈ [5; 0; 2])). by_evaluation.
  - exact Hx.
  - exact Hlow.
Defined.

(** ** The order of the candidate list *)

Lemma rank_scores_candidates_permuted argsort ts v cands cands' :
  cands ≡ₚ cands' ->
  rank_scores argsort ts v (Some cands) = rank_scores argsort ts v (Some cands').
Proof.
  intros Hperm. unfold rank_scores.
  destruct cands as [|a cands].
  - apply Permutation_nil_l in Hperm. subst cands'. reflexivity.
  - assert (cands' <> []) as Hne'
      by (intros ->; apply Permutation_nil_r in Hperm; discriminate).
    rewrite (py_max_nonempty (a :: cands)) by discriminate.
    rewrite (py_max_nonempty cands' Hne').
    assert (max_list (a :: cands) = max_list cands') as -> by (rewrite Hperm; reflexivity).
    simpl.
    destruct (assign_prefix _ (num_items ts) v) as [pref|e]; [|reflexivity].
    simpl. unfold intersects. f_equal.
    apply list_filter_iff. intros x. rewrite Hperm. reflexivity.
Qed.

(** X15. The order in which the candidates are passed does not matter:
    two lists with the same candidates get the same ranking (or the same
    error). *)
Theorem rank_ignores_candidate_order :
  forall argsort default_rank self ts u_draw i_draw user cands cands',
    raised (fit self ts u_draw i_draw) = None ->
    ranked_by_scores self ts user ->
    cands ≡ₚ cands' ->
    let m := model (fit self ts u_draw i_draw) in
    rank argsort default_rank m user (Some cands)
    = rank argsort default_rank m user (Some cands').
Proof.
  intros argsort default_rank self ts u_draw i_draw user cands cands' Hr Hcase Hperm m.
  destruct (rank_by_item_scores argsort default_rank self ts u_draw i_draw user Hr Hcase)
    as [_ Hrank].
  fold m in Hrank. rewrite !Hrank.
  apply rank_scores_candidates_permuted, Hperm.
Qed.

Lemma rank_ignores_candidate_order_witness :
  rank Sample.argsort Sample.default_rank (Sample.trained true) 0 (Some [5; 0; 2])
  = rank Sample.argsort Sample.default_rank (Sample.trained true) 0 (Some [2; 5; 0]).
Proof.
  apply (rank_ignores_candidate_order Sample.argsort Sample.default_rank
           (Sample.new true false) Sample.ts Sample.u_draw Sample.i_draw
           0 [5; 0; 2] [2; 5; 0]).
  - by_evaluation.
  - left. split; by_evaluation.
  - apply (bool_decide_unpack ([5; 0; 2] ≡ₚ [2; 5; 0])). by_evaluation.
Defined.

(** ** A negative [k] *)

(** X16. [fit] raises exactly when [k] is negative, with NumPy's
    [ValueError] for the negative dimension.  Nothing is printed and
    nothing is trained then, but the dataset is already attached to the
    model; the model stays as unfitted as it was. *)
Theorem fit_raises_on_negative_k :
  forall self ts u_draw i_draw,
    let out := fit self ts u_draw i_draw in
    (raised out = None <-> (0 <= k self)%Z)
    /\ ((k self < 0)%Z ->
        raised out = Some (ValueError "negative dimensions are not allowed")
        /\ stdout out = []
        /\ model out = Recommender_fit self ts
        /\ train_set (model out) = Some ts
        /\ fitted (model out) = fitted self
        /\ u_factors (model out) = u_factors self
        /\ i_factors (model out) = i_factors self).
Proof.
  intros self ts u_draw i_draw out. subst out. split.
  - apply fit_raises_iff.
  - intros Hneg. unfold fit, fit_init, np_random_normal. simpl.
    apply Z.ltb_lt in Hneg. rewrite Hneg. simpl. repeat split.
Qed.

Lemma fit_raises_on_negative_k_witness :
  let self := {| k := -1; max_iter := 20; learning_rate := 0.01%float;
                 lambda_reg := 0.02%float; use_bias := true;
                 early_stop := false; verbose := true; fitted := false;
                 train_set := None; u_factors := None; i_factors := None;
                 u_biases := None; i_biases := None |} in
  raised (fit self Sample.ts Sample.u_draw Sample.i_draw)
  = Some (ValueError "negative dimensions are not allowed")
  /\ fitted (model (fit self Sample.ts Sample.u_draw Sample.i_draw)) = false
  /\ train_set (model (fit self Sample.ts Sample.u_draw Sample.i_draw)) = Some Sample.ts.
Proof.
  intros self.
  destruct (fit_raises_on_negative_k self Sample.ts Sample.u_draw Sample.i_draw)
    as [_ Hneg].
  destruct Hneg as (Hr & _ & _ & Hts & Hf & _); [by_evaluation|].
  split; [exact Hr|]. split; [exact Hf | exact Hts].
Defined.
